(** * RIP2ETF: the snapshot pipeline and the Hyperliquid actions

    A shallow embedding of the TypeScript sources of the repository:
    - [utils/normalize.ts]  ([reconcileOverview], [alignAndRebase]);
    - [utils/tickers.ts]    (symbol extraction);
    - [providers/alphaVantage.ts], [providers/stooq.ts];
    - [actions/snapshot.ts] (the [rip2etf.snapshot] handler);
    - [plugin-hyperliquid/src/actions/priceCheck.ts].

    JavaScript numbers are IEEE 754 binary64 values and are modelled by Rocq's
    primitive floats, strings are modelled by [string] (one character per code
    unit), plain objects used as records by [gmap], arrays by [list], and a
    JavaScript [Set] by the list of its elements in insertion order. *)

From Stdlib Require Import ZArith Lia Floats Ascii String DecimalString.
From stdpp Require Import gmap strings list fin_maps sorting.

Local Open Scope string_scope.

(** ** JavaScript numbers *)

Module JsNumber.

(** [Number.isFinite]. *)
Definition isFinite (x : float) : bool := is_finite x.

(** Truthiness of a number: [0], [-0] and [NaN] are falsy. *)
Definition truthy (x : float) : bool := negb (is_zero x || is_nan x).

Lemma div_eucl_mul_self (m : positive) (k : Z) :
  Z.div_eucl (Z.pos m * k) (Z.pos m) = (k, 0%Z).
Proof.
  pose proof (Z.div_mul k (Z.pos m)) as Hd.
  pose proof (Z.mod_mul k (Z.pos m)) as Hm.
  unfold Z.div, Z.modulo in *.
  rewrite (Z.mul_comm (Z.pos m) k).
  destruct (Z.div_eucl (k * Z.pos m) (Z.pos m)) as [q r].
  f_equal; [apply Hd | apply Hm]; lia.
Qed.

(** Dividing a finite non-zero binary64 number by itself is exact. *)
Lemma SFdiv_self s m e :
  SF64div (S754_finite s m e) (S754_finite s m e) = Prim2SF 1%float.
Proof.
  unfold SF64div, SFdiv, SFdiv_core_binary.
  replace (Zdigits2 (Z.pos m) + e - (Zdigits2 (Z.pos m) + e))%Z with 0%Z by lia.
  rewrite Z.sub_diag.
  change (Z.min (fexp prec emax 0) 0) with (-53)%Z.
  change (0 - -53)%Z with 53%Z.
  rewrite Z.shiftl_mul_pow2 by lia.
  rewrite div_eucl_mul_self.
  assert (Hloc : new_location (Z.pos m) 0 = loc_Exact).
  { unfold new_location, new_location_even, new_location_odd.
    destruct (Z.even (Z.pos m)); reflexivity. }
  rewrite Hloc.
  destruct s; vm_compute; reflexivity.
Qed.

Lemma finite_nonzero_SF (x : float) :
  is_finite x = true -> is_zero x = false ->
  exists s m e, Prim2SF x = S754_finite s m e.
Proof.
  intros Hfin Hz.
  unfold is_finite, is_nan, is_infinity, is_zero in *.
  rewrite !FloatAxioms.eqb_spec, FloatAxioms.abs_spec in Hfin.
  rewrite FloatAxioms.eqb_spec in Hz.
  destruct (Prim2SF x) as [s|s| |s m e] eqn:E.
  - destruct s; vm_compute in Hz; discriminate.
  - destruct s; vm_compute in Hfin; discriminate.
  - vm_compute in Hfin; discriminate.
  - eauto.
Qed.

Lemma div_self (x : float) :
  is_finite x = true -> is_zero x = false -> (x / x)%float = 1%float.
Proof.
  intros Hfin Hz.
  destruct (finite_nonzero_SF x Hfin Hz) as (s & m & e & E).
  apply Prim2SF_inj. rewrite FloatAxioms.div_spec, E.
  apply SFdiv_self.
Qed.

Lemma finite_nonzero_truthy (x : float) :
  is_finite x = true -> is_zero x = false -> truthy x = true.
Proof.
  intros Hfin Hz. unfold truthy, is_finite in *. rewrite Hz.
  destruct (is_nan x); [discriminate | reflexivity].
Qed.

End JsNumber.

(** ** JavaScript [Set]: elements in insertion order *)

Module JsSet.
Section JsSet.
Context {A : Type} `{EqDecision A}.

(** [set.add(x)]: appends [x] unless it is already present. *)
Definition add (s : list A) (x : A) : list A :=
  if decide (x ∈ s) then s else s ++ [x].

(** [Array.from(new Set(l))]. *)
Definition of_list (l : list A) : list A := foldl add [] l.

Lemma add_NoDup s x : NoDup s -> NoDup (add s x).
Proof.
  intros Hs. unfold add. case_decide; [done|].
  apply NoDup_app. split_and!; [done | | apply NoDup_singleton].
  intros y Hy Hy'. apply list_elem_of_singleton in Hy'. by subst.
Qed.

Lemma elem_of_add s x y : y ∈ add s x <-> y ∈ s \/ y = x.
Proof.
  unfold add. case_decide.
  - split; [by left | intros [?| ->]; done].
  - rewrite elem_of_app, list_elem_of_singleton. done.
Qed.

Lemma foldl_add_NoDup l s : NoDup s -> NoDup (foldl add s l).
Proof.
  revert s. induction l as [|x l IH]; intros s Hs; simpl; [done|].
  apply IH, add_NoDup, Hs.
Qed.

Lemma elem_of_foldl_add l s y : y ∈ foldl add s l <-> y ∈ s \/ y ∈ l.
Proof.
  revert s. induction l as [|x l IH]; intros s; simpl.
  - rewrite elem_of_nil. tauto.
  - rewrite IH, elem_of_add, elem_of_cons. tauto.
Qed.

Lemma of_list_NoDup l : NoDup (of_list l).
Proof. apply foldl_add_NoDup, NoDup_nil_2. Qed.

Lemma elem_of_of_list l y : y ∈ of_list l <-> y ∈ l.
Proof. unfold of_list. rewrite elem_of_foldl_add, elem_of_nil. tauto. Qed.

(** The elements of [l] in order of first appearance. *)
Fixpoint firstOccurrences (l : list A) : list A :=
  match l with
  | [] => []
  | x :: r => x :: filter (fun y => y ≠ x) (firstOccurrences r)
  end.

Lemma foldl_add_first (l s : list A) :
  foldl add s l = (s ++ filter (fun y => y ∉ s) (firstOccurrences l))%list.
Proof.
  revert s. induction l as [|x l IH]; intros s; simpl.
  - by rewrite app_nil_r.
  - rewrite IH. unfold add. case_decide as Hx.
    + rewrite filter_cons_False by tauto.
      by rewrite list_filter_filter_l by (intros y Hy ->; done).
    + rewrite filter_cons_True by done. rewrite <- app_assoc. simpl. do 2 f_equal.
      rewrite list_filter_filter. apply list_filter_iff. intros y.
      rewrite elem_of_app, list_elem_of_singleton. tauto.
Qed.

(** [Array.from(new Set(l))] lists the elements of [l] in order of first
    appearance. *)
Lemma of_list_first (l : list A) : of_list l = firstOccurrences l.
Proof.
  unfold of_list. rewrite foldl_add_first. simpl.
  induction (firstOccurrences l) as [|y r IH]; [done|].
  rewrite filter_cons_True by apply not_elem_of_nil. by f_equal.
Qed.

Lemma firstOccurrences_NoDup (l : list A) : NoDup l → firstOccurrences l = l.
Proof.
  induction 1 as [|x l Hx Hl IH]; simpl; [done|]. rewrite IH. f_equal.
  clear IH Hl. induction l as [|y l IH]; [done|].
  apply not_elem_of_cons in Hx as [Hne Hx].
  rewrite filter_cons_True by done. f_equal. by apply IH.
Qed.

Lemma of_list_NoDup_id (l : list A) : NoDup l → of_list l = l.
Proof. intros Hl. rewrite of_list_first. by apply firstOccurrences_NoDup. Qed.

End JsSet.
End JsSet.

(** ** [types.ts] *)

Module Types.

Inductive Interval := I1d | I1h | I15m.

(** [Bar]: [t] and [c] are mandatory, the other columns optional. *)
Record Bar := {
  bar_t : string;
  bar_o : option float;
  bar_h : option float;
  bar_l : option float;
  bar_c : float;
  bar_v : option float
}.

Record PriceHistory := {
  ph_symbol : string;
  ph_interval : Interval;
  ph_bars : list Bar;
  ph_adjusted : option bool;
  ph_dataSources : list string;
  ph_sourceSymbol : option string
}.

(** The declared fields of [EtfOverview] other than [dataSources]. *)
Inductive OverviewKey :=
  | K_symbol | K_name | K_category | K_issuer | K_expenseRatio
  | K_inceptionDate | K_domicile | K_benchmark | K_aumUSD | K_navUSD
  | K_lastCloseUSD | K_lastCloseDate.

#[global] Instance OverviewKey_eq_dec : EqDecision OverviewKey.
Proof. solve_decision. Defined.

Definition OverviewKey_code (k : OverviewKey) : nat :=
  match k with
  | K_symbol => 0 | K_name => 1 | K_category => 2 | K_issuer => 3
  | K_expenseRatio => 4 | K_inceptionDate => 5 | K_domicile => 6
  | K_benchmark => 7 | K_aumUSD => 8 | K_navUSD => 9
  | K_lastCloseUSD => 10 | K_lastCloseDate => 11
  end.

Definition OverviewKey_of_code (n : nat) : option OverviewKey :=
  match n with
  | 0 => Some K_symbol | 1 => Some K_name | 2 => Some K_category
  | 3 => Some K_issuer | 4 => Some K_expenseRatio | 5 => Some K_inceptionDate
  | 6 => Some K_domicile | 7 => Some K_benchmark | 8 => Some K_aumUSD
  | 9 => Some K_navUSD | 10 => Some K_lastCloseUSD | 11 => Some K_lastCloseDate
  | _ => None
  end.

#[global] Instance OverviewKey_countable : Countable OverviewKey.
Proof.
  apply (inj_countable OverviewKey_code OverviewKey_of_code).
  intros []; reflexivity.
Defined.

(** A property value: [undefined], [null], a string or a number. *)
Inductive JsValue :=
  | JUndefined
  | JNull
  | JString (s : string)
  | JNumber (x : float).

(** [obj[key]]: reading an absent property yields [undefined]. *)
Definition js_get (obj : gmap OverviewKey JsValue) (key : OverviewKey) : JsValue :=
  default JUndefined (obj !! key).

(** [value === undefined || value === null]. *)
Definition is_nullish (v : JsValue) : bool :=
  match v with JUndefined | JNull => true | _ => false end.

(** [EtfOverview]: the scalar properties and the [dataSources] array. *)
Record EtfOverview := {
  ov_fields : gmap OverviewKey JsValue;
  ov_dataSources : list string
}.

(** [Partial<EtfOverview>]: [dataSources] may be missing (or not an array). *)
Record Fragment := {
  frag_fields : gmap OverviewKey JsValue;
  frag_dataSources : option (list string)
}.

Record Point := { pt_t : string; pt_v : float }.

Record CompareSeries := { cs_symbol : string; cs_points : list Point }.

Record Aligned := {
  dates : list string;
  table : list CompareSeries;
  sources : list string
}.

End Types.

(** ** [utils/normalize.ts] *)

Module Normalize.
Import Types.

(** The body of the [forEach] callback over [Object.entries(rest)]. *)
Definition mergeField (merged : gmap OverviewKey JsValue)
    (entry : OverviewKey * JsValue) : gmap OverviewKey JsValue :=
  let '(key, value) := entry in
  if is_nullish value then merged
  else match js_get merged key with
       | JUndefined => <[key := value]> merged
       | _ => merged
       end.

(** One iteration of the loop over [fragments]. *)
Definition mergeFragment (merged : EtfOverview) (fragment : option Fragment)
    : EtfOverview :=
  match fragment with
  | None => merged
  | Some fr =>
      {| ov_fields := foldl mergeField (ov_fields merged) (map_to_list (frag_fields fr));
         ov_dataSources :=
           match frag_dataSources fr with
           | Some ds => ov_dataSources merged ++ ds
           | None => ov_dataSources merged
           end |}
  end.

Definition reconcileOverview (symbol : string) (fragments : list (option Fragment))
    : EtfOverview :=
  let merged := {| ov_fields := {[ K_symbol := JString symbol ]}; ov_dataSources := [] |} in
  let merged := foldl mergeFragment merged fragments in
  {| ov_fields := ov_fields merged;
     ov_dataSources := JsSet.of_list (ov_dataSources merged) |}.

(** [ph.bars.map((b) => b.t)]. *)
Definition barDates (ph : PriceHistory) : list string := bar_t <$> ph_bars ph.

(** The reducer computing [commonDates]. *)
Definition commonStep (acc : list string) (ph : PriceHistory) : list string :=
  let dates := barDates ph in
  if decide (length acc = 0) then dates
  else filter (fun d => d ∈ dates) acc.

Definition commonDatesOf (series : list PriceHistory) : list string :=
  foldl commonStep [] series.

(** [new Map(ph.bars.map((b) => [b.t, b.c]))]: a later bar replaces an
    earlier one with the same date. *)
Definition barMap (ph : PriceHistory) : gmap string float :=
  foldl (fun m b => <[bar_t b := bar_c b]> m) ∅ (ph_bars ph).

Definition rebasePoint (map : gmap string float) (baseline : float) (d : string)
    : Point :=
  let price := map !! d in
  {| pt_t := d;
     pt_v := match price with
             | Some p => if JsNumber.truthy p then (p / baseline * 100)%float else nan
             | None => nan
             end |}.

Definition rebaseSeries (commonDates : list string) (ph : PriceHistory)
    : CompareSeries :=
  let map := barMap ph in
  let baseline := default 1%float (head commonDates ≫= (map !!.)) in
  {| cs_symbol := ph_symbol ph;
     cs_points := rebasePoint map baseline <$> commonDates |}.

Definition alignAndRebase (series : list PriceHistory) : Aligned :=
  match series with
  | [] => {| dates := []; table := []; sources := [] |}
  | _ =>
      let commonDates := commonDatesOf series in
      {| dates := commonDates;
         table := rebaseSeries commonDates <$> series;
         sources := JsSet.of_list (series ≫= ph_dataSources) |}
  end.

End Normalize.

(** ** Properties of [alignAndRebase] *)

Module NormalizeFacts.
Import Types Normalize.

Lemma rebaseSeries_dates (cd : list string) (ph : PriceHistory) :
  pt_t <$> cs_points (rebaseSeries cd ph) = cd.
Proof.
  unfold rebaseSeries; simpl. rewrite <- list_fmap_compose.
  induction cd as [|d cd IH]; simpl; [done | by f_equal].
Qed.

Lemma rebaseSeries_length (cd : list string) (ph : PriceHistory) :
  length (cs_points (rebaseSeries cd ph)) = length cd.
Proof. unfold rebaseSeries; simpl. apply length_fmap. Qed.

Lemma alignAndRebase_dates (series : list PriceHistory) :
  dates (alignAndRebase series) = commonDatesOf series.
Proof. by destruct series. Qed.

Lemma alignAndRebase_table (series : list PriceHistory) :
  table (alignAndRebase series) = rebaseSeries (commonDatesOf series) <$> series.
Proof. by destruct series. Qed.

(** The table has one row per input series, in input order, and every row
    is aligned index by index with the returned date axis. *)
Lemma alignAndRebase_aligned (series : list PriceHistory) :
  length (table (alignAndRebase series)) = length series ∧
  (∀ i ph, series !! i = Some ph →
     ∃ row, table (alignAndRebase series) !! i = Some row ∧
            cs_symbol row = ph_symbol ph) ∧
  (∀ row, row ∈ table (alignAndRebase series) →
     length (cs_points row) = length (dates (alignAndRebase series)) ∧
     pt_t <$> cs_points row = dates (alignAndRebase series)).
Proof.
  rewrite alignAndRebase_table, alignAndRebase_dates. split_and!.
  - apply length_fmap.
  - intros i ph Hi. exists (rebaseSeries (commonDatesOf series) ph).
    by rewrite list_lookup_fmap, Hi.
  - intros row Hrow. apply list_elem_of_fmap in Hrow as (ph & -> & _).
    split; [apply rebaseSeries_length | apply rebaseSeries_dates].
Qed.

Lemma commonStep_cons (d : string) (acc : list string) (ph : PriceHistory) :
  commonStep (d :: acc) ph = filter (fun d => d ∈ barDates ph) (d :: acc).
Proof. unfold commonStep. by case_decide. Qed.

(** As long as some date belongs to every series, the running intersection
    never becomes empty, and the reducer computes a subset of every series. *)
Lemma foldl_commonStep_common (rest : list PriceHistory) (acc : list string) (D : string) :
  D ∈ acc →
  (∀ ph, ph ∈ rest → D ∈ barDates ph) →
  D ∈ foldl commonStep acc rest ∧
  ∀ d, d ∈ foldl commonStep acc rest →
       d ∈ acc ∧ ∀ ph, ph ∈ rest → d ∈ barDates ph.
Proof.
  revert acc. induction rest as [|ph rest IH]; intros acc HD Hall; simpl.
  - split; [done|]. intros d Hd. split; [done|]. intros ph Hph. by apply elem_of_nil in Hph.
  - assert (Hstep : commonStep acc ph = filter (fun d => d ∈ barDates ph) acc).
    { destruct acc as [|a acc]; [by apply elem_of_nil in HD | apply commonStep_cons]. }
    rewrite Hstep.
    destruct (IH (filter (fun d => d ∈ barDates ph) acc)) as [H1 H2].
    + apply list_elem_of_filter. split; [|done]. apply Hall, elem_of_cons. by left.
    + intros ph' Hph'. apply Hall, elem_of_cons. by right.
    + split; [done|]. intros d Hd. destruct (H2 d Hd) as [Hacc Hrest].
      apply list_elem_of_filter in Hacc as [Hph Hacc]. split; [done|].
      intros ph' Hph'. apply elem_of_cons in Hph' as [->|Hph']; auto.
Qed.

Lemma commonDatesOf_common (series : list PriceHistory) (D : string) :
  series ≠ [] →
  (∀ ph, ph ∈ series → D ∈ barDates ph) →
  D ∈ commonDatesOf series ∧
  ∀ d, d ∈ commonDatesOf series → ∀ ph, ph ∈ series → d ∈ barDates ph.
Proof.
  intros Hne Hall. destruct series as [|ph0 rest]; [done|].
  unfold commonDatesOf; simpl. unfold commonStep at 2; simpl.
  destruct (foldl_commonStep_common rest (barDates ph0) D) as [H1 H2].
  - apply Hall, elem_of_cons. by left.
  - intros ph Hph. apply Hall, elem_of_cons. by right.
  - split; [done|]. intros d Hd ph Hph. destruct (H2 d Hd) as [H3 H4].
    apply elem_of_cons in Hph as [->|Hph]; auto.
Qed.

Lemma foldl_barMap_lookup (bars : list Bar) (m : gmap string float) (d : string) :
  (d ∈ bar_t <$> bars →
     ∃ b, b ∈ bars ∧ bar_t b = d ∧
          foldl (fun m b => <[bar_t b := bar_c b]> m) m bars !! d = Some (bar_c b)) ∧
  (d ∉ bar_t <$> bars →
     foldl (fun m b => <[bar_t b := bar_c b]> m) m bars !! d = m !! d).
Proof.
  revert m. induction bars as [|b bars IH]; intros m; simpl.
  - split; [intros H; by apply elem_of_nil in H | done].
  - destruct (IH (<[bar_t b := bar_c b]> m)) as [IH1 IH2].
    destruct (decide (d ∈ bar_t <$> bars)) as [Hin|Hnin].
    + split; [|intros Hn; exfalso; apply Hn, elem_of_cons; by right].
      intros _. destruct (IH1 Hin) as (b' & Hb' & Ht & Hl).
      exists b'. split_and!; [apply elem_of_cons; by right | done | done].
    + rewrite (IH2 Hnin). split.
      * intros Hd. apply elem_of_cons in Hd as [->|Hd]; [|done].
        exists b. split_and!; [apply elem_of_cons; by left | done |].
        apply lookup_insert_eq.
      * intros Hd. apply lookup_insert_ne. intros <-. apply Hd, elem_of_cons. by left.
Qed.

(** A date of the series is bound, in the series' map, to the close of one
    of the bars carrying that date. *)
Lemma barMap_lookup (ph : PriceHistory) (d : string) :
  d ∈ barDates ph →
  ∃ b, b ∈ ph_bars ph ∧ bar_t b = d ∧ barMap ph !! d = Some (bar_c b).
Proof. intros Hd. by apply (foldl_barMap_lookup (ph_bars ph) ∅ d). Qed.

Lemma rebase_value_100 (x : float) :
  is_finite x = true → is_zero x = false →
  (if JsNumber.truthy x then (x / x * 100)%float else nan) = 100%float.
Proof.
  intros Hf Hz. rewrite (JsNumber.finite_nonzero_truthy x Hf Hz).
  rewrite (JsNumber.div_self x Hf Hz). reflexivity.
Qed.

(** The property claimed for one input: every row of the table starts, at
    the first returned date, with the value 100. *)
Definition first_point_is_100 (series : list PriceHistory) : Prop :=
  ∃ d0, head (dates (alignAndRebase series)) = Some d0 ∧
    ∀ row, row ∈ table (alignAndRebase series) →
      head (cs_points row) = Some {| pt_t := d0; pt_v := 100%float |}.

(** [Infinity / Infinity] is [NaN], and so is a close that is falsy. *)
Lemma rebase_value_nan (x : float) :
  is_finite x = false ∨ is_zero x = true →
  (if JsNumber.truthy x then (x / x * 100)%float else nan) = nan.
Proof.
  unfold JsNumber.truthy. intros [Hfin|Hz]; [|by rewrite Hz].
  destruct (is_zero x); [done|]. cbn [orb].
  destruct (is_nan x) eqn:Hnan; [done|]. cbn [negb].
  unfold is_finite in Hfin. rewrite Hnan in Hfin. cbn [orb] in Hfin.
  apply negb_false_iff in Hfin. unfold is_infinity in Hfin.
  rewrite FloatAxioms.eqb_spec, FloatAxioms.abs_spec in Hfin.
  rewrite <- (SF2Prim_Prim2SF x).
  destruct (Prim2SF x) as [s|s| |s m e].
  - destruct s; vm_compute in Hfin; discriminate.
  - destruct s; vm_compute; reflexivity.
  - vm_compute in Hfin; discriminate.
  - destruct s; vm_compute in Hfin; discriminate.
Qed.

(** The close of a series on a date: that of its last bar carrying the
    date. *)
Definition closeOn (ph : PriceHistory) (d : string) : option float :=
  bar_c <$> last (filter (fun b => bar_t b = d) (ph_bars ph)).

Lemma foldl_barMap_last (bars : list Bar) (m : gmap string float) (d : string) :
  foldl (fun m b => <[bar_t b := bar_c b]> m) m bars !! d =
    match last (filter (fun b => bar_t b = d) bars) with
    | Some b => Some (bar_c b)
    | None => m !! d
    end.
Proof.
  revert m. induction bars as [|b bars IH]; intros m; [done|].
  cbn [foldl]. rewrite IH. destruct (decide (bar_t b = d)) as [Hb|Hb].
  - rewrite filter_cons_True by done. rewrite last_cons.
    destruct (last (filter _ bars)); [done|]. rewrite <- Hb. apply lookup_insert_eq.
  - rewrite filter_cons_False by done.
    destruct (last (filter _ bars)); [done|]. by apply lookup_insert_ne.
Qed.

(** The map built by [alignAndRebase] binds a date to the close of the
    series on that date. *)
Lemma barMap_closeOn (ph : PriceHistory) (d : string) : barMap ph !! d = closeOn ph d.
Proof.
  unfold barMap, closeOn. rewrite foldl_barMap_last.
  by destruct (last (filter _ (ph_bars ph))).
Qed.

(** C1 (as amended): for a non-empty list of series sharing at least one
    date, the returned date axis is non-empty and, for every series, with
    [base] its close on the first returned date: the point at each returned
    date [d] carries [d] and the value [close / base * 100] when the close of
    the series on [d] is truthy, [NaN] otherwise; so the value at the first
    returned date is exactly 100 when [base] is finite and non-zero, and [NaN]
    when [base] is zero, [NaN] or infinite. *)
Theorem alignAndRebase_first_common_date_100
    (series : list PriceHistory) (D : string) :
  series ≠ [] →
  (∀ ph, ph ∈ series → D ∈ barDates ph) →
  ∃ d0, head (dates (alignAndRebase series)) = Some d0 ∧
    ∀ i ph, series !! i = Some ph →
      ∃ row base,
        table (alignAndRebase series) !! i = Some row ∧
        cs_symbol row = ph_symbol ph ∧
        closeOn ph d0 = Some base ∧
        length (cs_points row) = length (dates (alignAndRebase series)) ∧
        (∀ j d, dates (alignAndRebase series) !! j = Some d →
           ∃ close, closeOn ph d = Some close ∧
             cs_points row !! j =
               Some {| pt_t := d;
                       pt_v := if JsNumber.truthy close
                               then (close / base * 100)%float else nan |}) ∧
        (is_finite base = true → is_zero base = false →
           head (cs_points row) = Some {| pt_t := d0; pt_v := 100%float |}) ∧
        (is_finite base = false ∨ is_zero base = true →
           head (cs_points row) = Some {| pt_t := d0; pt_v := nan |}).
Proof.
  intros Hne Hall.
  destruct (commonDatesOf_common series D Hne Hall) as [HD Hsub].
  rewrite alignAndRebase_dates, alignAndRebase_table.
  destruct (commonDatesOf series) as [|d0 cd] eqn:Hcd; [by apply elem_of_nil in HD|].
  exists d0. split; [done|]. intros i ph Hi.
  assert (Hph : ph ∈ series) by (apply list_elem_of_lookup; eauto).
  assert (Hclose : ∀ d, d ∈ d0 :: cd → ∃ close, closeOn ph d = Some close).
  { intros d Hd. destruct (barMap_lookup ph d (Hsub d Hd ph Hph)) as (b & _ & _ & Hl).
    rewrite barMap_closeOn in Hl. eauto. }
  destruct (Hclose d0) as [base Hbase]; [apply elem_of_cons; by left|].
  exists (rebaseSeries (d0 :: cd) ph), base.
  assert (Hbaseline : default 1%float (head (d0 :: cd) ≫= (barMap ph !!.)) = base).
  { cbn [head]. simpl. by rewrite barMap_closeOn, Hbase. }
  assert (Hfirst : head (cs_points (rebaseSeries (d0 :: cd) ph)) =
            Some {| pt_t := d0;
                    pt_v := if JsNumber.truthy base
                            then (base / base * 100)%float else nan |}).
  { unfold rebaseSeries. cbn [cs_points]. rewrite Hbaseline.
    cbn [fmap list_fmap head]. unfold rebasePoint. by rewrite barMap_closeOn, Hbase. }
  split_and!.
  - by rewrite list_lookup_fmap, Hi.
  - done.
  - done.
  - apply rebaseSeries_length.
  - intros j d Hj.
    destruct (Hclose d) as [close Hd]; [apply list_elem_of_lookup; eauto|].
    exists close. split; [done|].
    unfold rebaseSeries. cbn [cs_points]. rewrite Hbaseline.
    rewrite list_lookup_fmap, Hj. cbn [fmap option_fmap option_map].
    unfold rebasePoint. by rewrite barMap_closeOn, Hd.
  - intros Hf Hz. rewrite Hfirst. by rewrite (rebase_value_100 _ Hf Hz).
  - intros Hbad. rewrite Hfirst. by rewrite (rebase_value_nan _ Hbad).
Qed.

Definition mkBar (t : string) (c : float) : Bar :=
  {| bar_t := t; bar_o := None; bar_h := None; bar_l := None; bar_c := c; bar_v := None |}.

Definition mkHistory (symbol : string) (bars : list Bar) (src : string) : PriceHistory :=
  {| ph_symbol := symbol; ph_interval := I1d; ph_bars := bars;
     ph_adjusted := Some false; ph_dataSources := [src]; ph_sourceSymbol := None |}.

Definition twoSeries : list PriceHistory :=
  [ mkHistory "VOO" [mkBar "2024-01-02" 435.5%float; mkBar "2024-01-03" 433.25%float] "stooq";
    mkHistory "VWCE" [mkBar "2024-01-03" 104.5%float; mkBar "2024-01-04" 105%float] "stooq" ].

Lemma alignAndRebase_first_common_date_100_witness :
  ∃ d0, head (dates (alignAndRebase twoSeries)) = Some d0 ∧
    ∀ i ph, twoSeries !! i = Some ph →
      ∃ row base,
        table (alignAndRebase twoSeries) !! i = Some row ∧
        cs_symbol row = ph_symbol ph ∧
        closeOn ph d0 = Some base ∧
        length (cs_points row) = length (dates (alignAndRebase twoSeries)) ∧
        (∀ j d, dates (alignAndRebase twoSeries) !! j = Some d →
           ∃ close, closeOn ph d = Some close ∧
             cs_points row !! j =
               Some {| pt_t := d;
                       pt_v := if JsNumber.truthy close
                               then (close / base * 100)%float else nan |}) ∧
        (is_finite base = true → is_zero base = false →
           head (cs_points row) = Some {| pt_t := d0; pt_v := 100%float |}) ∧
        (is_finite base = false ∨ is_zero base = true →
           head (cs_points row) = Some {| pt_t := d0; pt_v := nan |}).
Proof.
  apply (alignAndRebase_first_common_date_100 twoSeries "2024-01-03").
  - discriminate.
  - intros ph Hph. unfold twoSeries in Hph.
    repeat (apply elem_of_cons in Hph as [->|Hph]);
      [vm_compute; set_solver .. | by apply elem_of_nil in Hph].
Defined.

(** A series whose close on the first common date is zero. *)
Definition zeroCloseSeries : list PriceHistory :=
  [ mkHistory "VOO" [mkBar "2024-01-02" 0%float; mkBar "2024-01-03" 433.25%float] "stooq" ].

Lemma nan_neq_100 : nan ≠ 100%float.
Proof. intros H. apply (f_equal is_nan) in H. vm_compute in H. discriminate. Qed.

(** C1 as stated fails: a close of zero on the first common date is rebased
    to [NaN], not to 100. *)
Lemma alignAndRebase_zero_close_counterexample :
  ¬ (∀ series : list PriceHistory,
       series ≠ [] →
       (∃ D, ∀ ph, ph ∈ series → D ∈ barDates ph) →
       first_point_is_100 series).
Proof.
  intros H. destruct (H zeroCloseSeries) as (d0 & Hd0 & Hrows).
  - discriminate.
  - exists "2024-01-02". intros ph Hph. unfold zeroCloseSeries in Hph.
    apply list_elem_of_singleton in Hph as ->. vm_compute. set_solver.
  - specialize (Hrows (rebaseSeries (commonDatesOf zeroCloseSeries) (mkHistory "VOO" [mkBar "2024-01-02" 0%float; mkBar "2024-01-03" 433.25%float] "stooq"))).
    assert (Hv : pt_v <$> head (cs_points (rebaseSeries (commonDatesOf zeroCloseSeries)
              (mkHistory "VOO" [mkBar "2024-01-02" 0%float; mkBar "2024-01-03" 433.25%float] "stooq")))
            = Some nan) by (vm_compute; reflexivity).
    rewrite Hrows in Hv.
    + apply (f_equal (default 0%float)) in Hv. simpl in Hv.
      symmetry in Hv. by apply nan_neq_100.
    + rewrite alignAndRebase_table. apply list_elem_of_fmap. eexists. split; [done|].
      apply list_elem_of_singleton. done.
Qed.

(** Three series without any common date. *)
Definition disjointSeries : list PriceHistory :=
  [ mkHistory "VOO" [mkBar "2024-01-02" 435.5%float] "stooq";
    mkHistory "VWCE" [mkBar "2024-01-03" 104.5%float] "stooq";
    mkHistory "IWDA" [mkBar "2024-01-04" 92.25%float] "stooq" ].

(** C8: on three series without any common date, the reducer starts over
    from the dates of the last series once the running intersection is
    empty: the returned axis is the last series' single date, and every
    row has one point, [NaN] for the first two series. *)
Theorem alignAndRebase_disjoint_series :
  (∀ d, ¬ ∀ ph, ph ∈ disjointSeries → d ∈ barDates ph) ∧
  dates (alignAndRebase disjointSeries) = ["2024-01-04"] ∧
  cs_points <$> table (alignAndRebase disjointSeries) =
    [ [ {| pt_t := "2024-01-04"; pt_v := nan |} ];
      [ {| pt_t := "2024-01-04"; pt_v := nan |} ];
      [ {| pt_t := "2024-01-04"; pt_v := 100%float |} ] ].
Proof.
  split_and!.
  - intros d H.
    assert (H1 : d ∈ barDates (mkHistory "VOO" [mkBar "2024-01-02" 435.5%float] "stooq"))
      by (apply H, elem_of_cons; by left).
    assert (H2 : d ∈ barDates (mkHistory "VWCE" [mkBar "2024-01-03" 104.5%float] "stooq"))
      by (apply H, elem_of_cons; right; apply elem_of_cons; by left).
    apply list_elem_of_singleton in H1, H2. simpl in H1, H2. congruence.
  - by vm_compute.
  - by vm_compute.
Qed.

End NormalizeFacts.

(** ** Properties of [reconcileOverview] *)

Module ReconcileFacts.
Import Types Normalize.

(** What the specification asks for: the first value of a field, in
    fragment order, that is neither [null] nor [undefined]. *)
Fixpoint firstNonNull (k : OverviewKey) (fragments : list (option Fragment)) : JsValue :=
  match fragments with
  | [] => JUndefined
  | None :: rest => firstNonNull k rest
  | Some fr :: rest =>
      let v := js_get (frag_fields fr) k in
      if is_nullish v then firstNonNull k rest else v
  end.

(** The value a list of entries contributes to a field. *)
Definition entryValue (m : gmap OverviewKey JsValue) (k : OverviewKey) : JsValue :=
  let v := js_get m k in if is_nullish v then JUndefined else v.

Lemma js_get_insert_eq (m : gmap OverviewKey JsValue) k v :
  js_get (<[k := v]> m) k = v.
Proof. unfold js_get. by rewrite lookup_insert_eq. Qed.

Lemma js_get_insert_ne (m : gmap OverviewKey JsValue) k k' v :
  k ≠ k' → js_get (<[k := v]> m) k' = js_get m k'.
Proof. intros Hne. unfold js_get. by rewrite lookup_insert_ne. Qed.

Lemma mergeField_other (m : gmap OverviewKey JsValue) k k' v :
  k ≠ k' → js_get (mergeField m (k, v)) k' = js_get m k'.
Proof.
  intros Hne. unfold mergeField.
  destruct (is_nullish v); [done|].
  destruct (js_get m k); try done; by apply js_get_insert_ne.
Qed.

Lemma mergeField_defined (m : gmap OverviewKey JsValue) e k :
  js_get m k ≠ JUndefined → js_get (mergeField m e) k = js_get m k.
Proof.
  intros Hdef. destruct e as [k' v].
  destruct (decide (k' = k)) as [->|Hne]; [|by apply mergeField_other].
  unfold mergeField. destruct (is_nullish v); [done|].
  destruct (js_get m k) eqn:E; done.
Qed.

Lemma mergeField_fresh (m : gmap OverviewKey JsValue) k v :
  js_get m k = JUndefined →
  js_get (mergeField m (k, v)) k = if is_nullish v then JUndefined else v.
Proof.
  intros Hundef. unfold mergeField.
  destruct (is_nullish v); [done|]. rewrite Hundef. apply js_get_insert_eq.
Qed.

(** A field that already has a value is never overwritten. *)
Lemma foldl_mergeField_defined (l : list (OverviewKey * JsValue)) m k :
  js_get m k ≠ JUndefined → js_get (foldl mergeField m l) k = js_get m k.
Proof.
  revert m. induction l as [|e l IH]; intros m Hdef; [done|].
  cbn [foldl]. rewrite IH; rewrite mergeField_defined; done.
Qed.

Lemma foldl_mergeField_notin (l : list (OverviewKey * JsValue)) m k :
  k ∉ l.*1 → js_get (foldl mergeField m l) k = js_get m k.
Proof.
  revert m. induction l as [|[k' v] l IH]; intros m Hnin; [done|].
  cbn [foldl]. rewrite fmap_cons in Hnin. apply not_elem_of_cons in Hnin as [Hne Hnin].
  rewrite IH by done. by apply mergeField_other.
Qed.

Lemma foldl_mergeField_fresh (l : list (OverviewKey * JsValue)) m k :
  NoDup l.*1 → js_get m k = JUndefined →
  js_get (foldl mergeField m l) k = entryValue (list_to_map l) k.
Proof.
  revert m. induction l as [|[k' v] l IH]; intros m Hnd Hundef.
  - simpl. by rewrite Hundef.
  - rewrite fmap_cons in Hnd. apply NoDup_cons in Hnd as [Hnin Hnd].
    cbn [foldl]. rewrite list_to_map_cons.
    destruct (decide (k' = k)) as [->|Hne].
    + unfold entryValue. rewrite js_get_insert_eq.
      destruct (is_nullish v) eqn:Hv.
      * rewrite foldl_mergeField_notin by done.
        by rewrite mergeField_fresh, Hv.
      * rewrite foldl_mergeField_defined; rewrite mergeField_fresh, Hv; try done.
        intros ->. discriminate.
    + rewrite IH; [|done|by rewrite mergeField_other].
      unfold entryValue. by rewrite js_get_insert_ne.
Qed.

(** One fragment: a defined field is kept, an undefined one takes the
    fragment's value unless that value is [null] or [undefined]. *)
Lemma mergeFragment_get (merged : EtfOverview) (fr : Fragment) k :
  js_get (ov_fields (mergeFragment merged (Some fr))) k =
    match js_get (ov_fields merged) k with
    | JUndefined => entryValue (frag_fields fr) k
    | v => v
    end.
Proof.
  simpl. destruct (js_get (ov_fields merged) k) eqn:E.
  - rewrite foldl_mergeField_fresh; [|apply NoDup_fst_map_to_list|done].
    by rewrite list_to_map_to_list.
  - rewrite foldl_mergeField_defined; rewrite E; done.
  - rewrite foldl_mergeField_defined; rewrite E; done.
  - rewrite foldl_mergeField_defined; rewrite E; done.
Qed.

Lemma foldl_mergeFragment_get (fragments : list (option Fragment)) merged k :
  js_get (ov_fields (foldl mergeFragment merged fragments)) k =
    match js_get (ov_fields merged) k with
    | JUndefined => firstNonNull k fragments
    | v => v
    end.
Proof.
  revert merged. induction fragments as [|[fr|] fragments IH]; intros merged.
  - simpl. by destruct (js_get (ov_fields merged) k).
  - cbn [foldl firstNonNull]. rewrite IH, mergeFragment_get. unfold entryValue.
    destruct (js_get (ov_fields merged) k); try done.
    destruct (js_get (frag_fields fr) k); done.
  - cbn [foldl firstNonNull]. rewrite IH. done.
Qed.

Lemma foldl_mergeFragment_sources (fragments : list (option Fragment)) merged :
  ov_dataSources (foldl mergeFragment merged fragments) =
    (ov_dataSources merged ++
     (fragments ≫= fun o => default [] (o ≫= frag_dataSources)))%list.
Proof.
  revert merged. induction fragments as [|[fr|] fragments IH]; intros merged; simpl.
  - by rewrite app_nil_r.
  - rewrite IH; simpl. destruct (frag_dataSources fr); simpl; [by rewrite <- app_assoc | done].
  - by rewrite IH.
Qed.

Lemma reconcileOverview_get (symbol : string) (fragments : list (option Fragment)) k :
  js_get (ov_fields (reconcileOverview symbol fragments)) k =
    if decide (k = K_symbol) then JString symbol else firstNonNull k fragments.
Proof.
  unfold reconcileOverview; simpl. rewrite foldl_mergeFragment_get; simpl.
  case_decide as Hk.
  - subst k. unfold js_get. by rewrite lookup_singleton_eq.
  - unfold js_get. rewrite lookup_singleton_ne by done. done.
Qed.

Lemma firstNonNull_app (l1 l2 : list (option Fragment)) k :
  firstNonNull k l1 ≠ JUndefined → firstNonNull k (l1 ++ l2) = firstNonNull k l1.
Proof.
  induction l1 as [|[fr|] l1 IH]; simpl; intros H; [done| |by apply IH].
  destruct (is_nullish (js_get (frag_fields fr) k)); [by apply IH | done].
Qed.

(** C2 (as amended): the [symbol] field of the merged overview is the
    [symbol] argument; every other field holds the first value, in fragment
    order, that is neither [null] nor [undefined]; a field that has a value
    after some fragments keeps it whatever fragments follow; and
    [dataSources] holds exactly the fragments' data sources, each once. *)
Theorem reconcileOverview_first_non_null
    (symbol : string) (fragments : list (option Fragment)) :
  js_get (ov_fields (reconcileOverview symbol fragments)) K_symbol = JString symbol ∧
  (∀ k, k ≠ K_symbol →
     js_get (ov_fields (reconcileOverview symbol fragments)) k =
       firstNonNull k fragments) ∧
  (∀ k later,
     js_get (ov_fields (reconcileOverview symbol fragments)) k ≠ JUndefined →
     js_get (ov_fields (reconcileOverview symbol (fragments ++ later))) k =
       js_get (ov_fields (reconcileOverview symbol fragments)) k) ∧
  NoDup (ov_dataSources (reconcileOverview symbol fragments)) ∧
  (∀ s, s ∈ ov_dataSources (reconcileOverview symbol fragments) ↔
        ∃ fr ds, Some fr ∈ fragments ∧ frag_dataSources fr = Some ds ∧ s ∈ ds).
Proof.
  split_and!.
  - rewrite reconcileOverview_get. by case_decide.
  - intros k Hk. rewrite reconcileOverview_get. by case_decide.
  - intros k later. rewrite !reconcileOverview_get. case_decide; [done|].
    apply firstNonNull_app.
  - apply JsSet.of_list_NoDup.
  - intros s. unfold reconcileOverview; simpl.
    rewrite JsSet.elem_of_of_list, foldl_mergeFragment_sources; simpl.
    rewrite list_elem_of_bind. split.
    + intros ([fr|] & Hs & Hfr); simpl in Hs; [|by apply elem_of_nil in Hs].
      destruct (frag_dataSources fr) as [ds|] eqn:E; simpl in Hs;
        [|by apply elem_of_nil in Hs].
      by exists fr, ds.
    + intros (fr & ds & Hfr & Hds & Hs). exists (Some fr). split; [|done].
      simpl. by rewrite Hds.
Qed.

Definition fmpFragment : Fragment :=
  {| frag_fields := {[ K_name := JNull; K_category := JString "Equity" ]};
     frag_dataSources := Some ["fmp"] |}.

Definition finnhubFragment : Fragment :=
  {| frag_fields := {[ K_name := JString "Vanguard S&P 500 ETF";
                       K_category := JString "Large Blend" ]};
     frag_dataSources := Some ["finnhub"; "fmp"] |}.

Lemma reconcileOverview_first_non_null_witness :
  js_get (ov_fields (reconcileOverview "VOO" [Some fmpFragment; None; Some finnhubFragment]))
    K_category = JString "Equity" ∧
  js_get (ov_fields (reconcileOverview "VOO" [Some fmpFragment; None; Some finnhubFragment]))
    K_name = JString "Vanguard S&P 500 ETF" ∧
  ov_dataSources (reconcileOverview "VOO" [Some fmpFragment; None; Some finnhubFragment])
    = ["fmp"; "finnhub"].
Proof.
  destruct (reconcileOverview_first_non_null "VOO"
              [Some fmpFragment; None; Some finnhubFragment]) as (_ & Hget & _).
  split_and!.
  - rewrite (Hget K_category); [vm_compute; reflexivity | discriminate].
  - rewrite (Hget K_name); [vm_compute; reflexivity | discriminate].
  - vm_compute; reflexivity.
Defined.

(** A fragment that carries its own [symbol]. *)
Definition manualFragment : Fragment :=
  {| frag_fields := {[ K_symbol := JString "VOO" ]};
     frag_dataSources := Some ["manual"] |}.

(** C2 as stated fails for the field [symbol]: the merged overview holds the
    [symbol] argument, not the value of the first fragment that sets it. *)
Lemma reconcileOverview_symbol_counterexample :
  ¬ (∀ (symbol : string) (fragments : list (option Fragment)) (k : OverviewKey),
       js_get (ov_fields (reconcileOverview symbol fragments)) k =
         firstNonNull k fragments).
Proof.
  intros H. specialize (H "SPY" [Some manualFragment] K_symbol).
  vm_compute in H. discriminate.
Qed.

End ReconcileFacts.

(** ** [utils/tickers.ts] *)

Module Tickers.

Definition STOP_WORDS : list string :=
  [ "ETF"; "ETFS"; "INDICE"; "INDEX"; "SP"; "USA"; "USD"; "EUR"; "CHF"; "MR";
    "RIP"; "FIRE"; "VS"; "E"; "DI"; "DEL"; "DELLA"; "DEI"; "DEGLI"; "DAL";
    "DALLA"; "CON"; "PER"; "NEL"; "NELLA"; "NEI"; "NELLE"; "GLI"; "LE"; "IL";
    "LO"; "LA"; "UNA"; "UNO"; "UN"; "ANCHE"; "GRAFICO"; "GRAFICI"; "SNAPSHOT";
    "COMPARA"; "CONFRONTA"; "CHECK"; "PUOI"; "PUÃ’"; "DAMMI"; "DARMI"; "DAMI";
    "DARTI"; "CHIEDO"; "VOGLIO"; "PANORAMICA"; "AGGIORNATA"; "CONFRONTO";
    "ULTIMI"; "MESI"; "MAGARI"; "INCLUDENDO"; "ANDAMENTO"; "ORA"; "STO";
    "PREPARANDO"; "GENERANDO"; "RISULTATI"; "ISSUER"; "BENCHMARK"; "CATEGORIA";
    "TER"; "TOP"; "HOLDINGS"; "PERFORMANCE"; "NUOVO"; "NUOVAMENTE"; "PREGO" ].

(** [STOP_WORDS.has(x)]. *)
Definition isStopWord (x : string) : bool := bool_decide (x ∈ STOP_WORDS).

(** [Object.entries(PHRASE_ALIAS_MAP)], in insertion order. *)
Definition PHRASE_ALIAS_MAP : list (string * string) :=
  [ ("S&P 500", "SP500"); ("S&P500", "SP500"); ("S & P 500", "SP500");
    ("SP 500", "SP500"); ("SNP 500", "SP500"); ("NASDAQ 100", "NASDAQ100");
    ("NASDAQ-100", "NASDAQ100"); ("NASDAQ COMPOSITE", "NASDAQ");
    ("NASDAQ", "NASDAQ"); ("DOW JONES", "DOWJONES"); ("DOW 30", "DOW30") ].

Definition PRIMARY_ALIAS_MAP : gmap string string :=
  list_to_map
    [ ("SP500", "SPY"); ("S&P500", "SPY"); ("S&P", "SPY"); ("SPX", "SPY");
      ("SNP", "SPY"); ("GSPC", "SPY"); ("NASDAQ", "QQQ"); ("NASDAQ100", "QQQ");
      ("NAS100", "QQQ"); ("NDX", "QQQ"); ("IXIC", "QQQ"); ("DOWJONES", "DIA");
      ("DOW", "DIA"); ("DJIA", "DIA"); ("DOW30", "DIA") ].

(** *** Character classes *)

Definition code (c : ascii) : nat := nat_of_ascii c.

(** [[A-Z]] *)
Definition isUpper (c : ascii) : bool := (65 <=? code c)%nat && (code c <=? 90)%nat.
Definition isLower (c : ascii) : bool := (97 <=? code c)%nat && (code c <=? 122)%nat.
Definition isDigit (c : ascii) : bool := (48 <=? code c)%nat && (code c <=? 57)%nat.

(** [\w] *)
Definition isWord (c : ascii) : bool :=
  isUpper c || isLower c || isDigit c || (code c =? 95)%nat.

(** Upper-casing of one code unit; it is only applied to word characters
    and dots, and is the canonicalisation of the [i] flag. *)
Definition upperChar (c : ascii) : ascii :=
  if isLower c then ascii_of_nat (code c - 32) else c.

Fixpoint toUpperCase (s : string) : string :=
  match s with
  | EmptyString => EmptyString
  | String c s' => String (upperChar c) (toUpperCase s')
  end.

(** [s.replace(/[^\w.]/g, "")] *)
Fixpoint stripNonWord (s : string) : string :=
  match s with
  | EmptyString => EmptyString
  | String c s' =>
      if isWord c || (code c =? 46)%nat then String c (stripNonWord s')
      else stripNonWord s'
  end.

(** *** A backtracking matcher for [TICKER_REGEX]

    A pattern is a function of its continuation. A continuation receives
    whether the previous character is a word character, and the rest of the
    input; it returns the input left after the whole match. *)

Definition Cont := bool → string → option string.

Definition accept : Cont := fun _ s => Some s.

Definition nextIsWord (s : string) : bool :=
  match s with String c _ => isWord c | EmptyString => false end.

(** [\b] *)
Definition wordBoundary (k : Cont) : Cont := fun prevWord s =>
  if xorb prevWord (nextIsWord s) then k prevWord s else None.

(** A literal character. *)
Definition literal (c : ascii) (k : Cont) : Cont := fun _ s =>
  match s with
  | String c' s' => if decide (c' = c) then k (isWord c') s' else None
  | EmptyString => None
  end.

(** [[A-Z]{lo,hi}], greedy: one more letter is tried first. *)
Fixpoint upperRange (lo hi : nat) (k : Cont) (prevWord : bool) (s : string)
    : option string :=
  let stop := if (lo =? 0)%nat then k prevWord s else None in
  match hi with
  | 0 => stop
  | S hi' =>
      match s with
      | String c s' =>
          if isUpper c then
            match upperRange (pred lo) hi' k (isWord c) s' with
            | Some rest => Some rest
            | None => stop
            end
          else stop
      | EmptyString => stop
      end
  end.

(** [(?: ... )?], greedy. *)
Definition optional (group : Cont → Cont) (k : Cont) : Cont := fun prevWord s =>
  match group k prevWord s with
  | Some rest => Some rest
  | None => k prevWord s
  end.

(** [/\b[A-Z]{2,6}(?:\.[A-Z]{1,3})?\b/] tried at one position. *)
Definition TICKER_REGEX : Cont :=
  wordBoundary
    (upperRange 2 6
       (optional (fun k => literal "." (upperRange 1 3 k))
          (wordBoundary accept))).

(** [text.match(TICKER_REGEX)] with the [g] flag: the matches from left to
    right, the search resuming where the previous match ended. [skip] counts
    the characters of the current match still to be passed. No match is
    modelled by the empty list. *)
Fixpoint matchAll (skip : nat) (prevWord : bool) (s : string) : list string :=
  match s with
  | EmptyString => []
  | String c s' =>
      match skip with
      | S n => matchAll n (isWord c) s'
      | 0 =>
          match TICKER_REGEX prevWord s with
          | Some rest =>
              let n := String.length s - String.length rest in
              substring 0 n s :: matchAll (n - 1) (isWord c) s'
          | None => matchAll 0 (isWord c) s'
          end
      end
  end.

(** *** Phrase aliases *)

(** The escaped phrase, matched with the [i] flag at the head of [s]. *)
Fixpoint prefixCI (pat s : string) : bool :=
  match pat, s with
  | EmptyString, _ => true
  | String p pat', String c s' =>
      bool_decide (upperChar p = upperChar c) && prefixCI pat' s'
  | String _ _, EmptyString => false
  end.

(** [s.replace(new RegExp(escapeRegExp(pat), "gi"), rep)] *)
Fixpoint replaceAll (pat rep : string) (skip : nat) (s : string) : string :=
  match s with
  | EmptyString => EmptyString
  | String c s' =>
      match skip with
      | S n => replaceAll pat rep n s'
      | 0 =>
          if prefixCI pat s
          then rep ++ replaceAll pat rep (String.length pat - 1) s'
          else String c (replaceAll pat rep 0 s')
      end
  end.

Definition normalizePhrases (text : string) : string :=
  foldl (fun normalized '(phrase, replacement) =>
           replaceAll phrase (" " ++ replacement ++ " ") 0 normalized)
        text PHRASE_ALIAS_MAP.

(** *** Extraction *)

(** The body of the loop over the matches. *)
Definition extractToken (target : list string) (raw : string) : list string :=
  let token := stripNonWord raw in
  if bool_decide (token = "") || (String.length token <? 3)%nat then target
  else
    let upper := toUpperCase token in
    if isStopWord upper then target
    else
      let normalized := default upper (PRIMARY_ALIAS_MAP !! upper) in
      if isStopWord normalized then target
      else JsSet.add target normalized.

Definition extractFromText (target : list string) (text : string) : list string :=
  if bool_decide (text = "") then target
  else foldl extractToken target (matchAll 0 false (normalizePhrases text)).

(** A value of unknown type, as [addCandidate] inspects it. *)
#[warnings="-register-all"]
Inductive JsAny :=
  | AString (s : string)
  | AArray (items : list JsAny)
  | AObject (values : list JsAny)
  | AOther.

Fixpoint addCandidate (set : list string) (value : JsAny) : list string :=
  match value with
  | AString s => if bool_decide (s = "") then set else extractFromText set s
  | AArray items => foldl addCandidate set items
  | AObject values => foldl addCandidate set values
  | AOther => set
  end.

(** [message.content], with the three properties that are read. *)
Record Content := {
  c_symbol : JsAny;
  c_symbols : JsAny;
  c_text : option string
}.

(** [normalizeSymbol] applied to a string. *)
Definition normalizeSymbol (candidate : string) : option string :=
  if bool_decide (candidate = "") then None
  else
    let token := stripNonWord candidate in
    if bool_decide (token = "") || (String.length token <? 2)%nat then None
    else
      let upper := toUpperCase token in
      if isStopWord upper then None else Some upper.

Definition limitResult (set : list string) (limit : option Z) : list string :=
  match limit with
  | Some n => if (0 <? n)%Z then take (Z.to_nat n) set else set
  | None => set
  end.

Definition addFallbacks (set : list string) (fallbackSymbols : option (list string))
    : list string :=
  match fallbackSymbols with
  | Some symbols =>
      foldl (fun set symbol =>
               match normalizeSymbol symbol with
               | Some normalized => JsSet.add set normalized
               | None => set
               end) set symbols
  | None => set
  end.

Definition collectSymbols (content : option Content)
    (fallbackSymbols : option (list string)) (limit : option Z) : list string :=
  let messageSymbols :=
    match content with
    | Some c =>
        let set := addCandidate [] (c_symbol c) in
        let set := addCandidate set (c_symbols c) in
        match c_text c with
        | Some text => extractFromText set text
        | None => set
        end
    | None => []
    end in
  if (0 <? length messageSymbols)%nat
  then limitResult (addFallbacks messageSymbols fallbackSymbols) limit
  else limitResult (addFallbacks [] fallbackSymbols) limit.

(** Extraction from a plain text message. *)
Definition symbolsOfText (text : string) : list string :=
  collectSymbols (Some {| c_symbol := AOther; c_symbols := AOther; c_text := Some text |})
    None None.

End Tickers.

(** ** Properties of the ticker matcher *)

Module TickerFacts.
Import Tickers.

(** *** Strings *)

Lemma append_nil_l (b : string) : "" ++ b = b.
Proof. reflexivity. Qed.

Lemma append_cons (x : ascii) (a b : string) : String x a ++ b = String x (a ++ b).
Proof. reflexivity. Qed.

Ltac str_simpl := rewrite ?append_cons, ?append_nil_l; simpl.

Lemma append_assoc (a b c : string) : (a ++ b) ++ c = a ++ (b ++ c).
Proof. induction a as [|x a IH]; str_simpl; [done | by rewrite IH]. Qed.

Lemma append_nil_r (a : string) : a ++ "" = a.
Proof. induction a as [|x a IH]; str_simpl; [done | by rewrite IH]. Qed.

Lemma length_append (a b : string) :
  String.length (a ++ b) = String.length a + String.length b.
Proof. induction a as [|x a IH]; str_simpl; [done | by rewrite IH]. Qed.

Lemma substring_append (t r : string) : substring 0 (String.length t) (t ++ r) = t.
Proof.
  induction t as [|x t IH]; str_simpl.
  - by destruct r.
  - by rewrite IH.
Qed.

Lemma matched_prefix (t r : string) :
  substring 0 (String.length (t ++ r) - String.length r) (t ++ r) = t.
Proof.
  rewrite length_append.
  replace (String.length t + String.length r - String.length r) with (String.length t) by lia.
  apply substring_append.
Qed.

(** *** The shape of a ticker *)

Fixpoint allUpper (s : string) : bool :=
  match s with
  | EmptyString => true
  | String c s' => isUpper c && allUpper s'
  end.

(** Two to six capital letters, optionally followed by a dot and one to
    three capital letters. *)
Definition Ticker (t : string) : Prop :=
  ∃ u, allUpper u = true ∧ (2 ≤ String.length u ≤ 6)%nat ∧
    (t = u ∨ ∃ v, allUpper v = true ∧ (1 ≤ String.length v ≤ 3)%nat ∧ t = u ++ "." ++ v).

Definition nextIsUpper (s : string) : bool :=
  match s with String c _ => isUpper c | EmptyString => false end.

(** Whether the last character read is a word character, after the capital
    letters [u] have been read. *)
Definition prevAfter (prevWord : bool) (u : string) : bool :=
  match u with EmptyString => prevWord | String _ _ => true end.

Lemma isUpper_isWord (c : ascii) : isUpper c = true → isWord c = true.
Proof. intros H. unfold isWord. by rewrite H. Qed.

Lemma upperRange_stop (lo hi : nat) (k : Cont) (p : bool) (s r : string) :
  (if (lo =? 0)%nat then k p s else None) = Some r →
  ∃ u s', s = u ++ s' ∧ allUpper u = true ∧
          (lo ≤ String.length u ≤ hi)%nat ∧ k (prevAfter p u) s' = Some r.
Proof.
  intros Hs. destruct (lo =? 0)%nat eqn:Hlo; [|done].
  apply Nat.eqb_eq in Hlo. exists "", s. simpl. split_and!; [done|done|lia|lia|done].
Qed.

Lemma upperRange_sound (hi lo : nat) (k : Cont) (p : bool) (s r : string) :
  upperRange lo hi k p s = Some r →
  ∃ u s', s = u ++ s' ∧ allUpper u = true ∧
          (lo ≤ String.length u ≤ hi)%nat ∧ k (prevAfter p u) s' = Some r.
Proof.
  revert lo p s. induction hi as [|hi IH]; intros lo p s H.
  - simpl in H. by apply upperRange_stop.
  - simpl in H. destruct s as [|c s]; [by apply upperRange_stop|].
    destruct (isUpper c) eqn:Hc; [|by apply upperRange_stop].
    destruct (upperRange (pred lo) hi k (isWord c) s) as [r'|] eqn:Hrec;
      [|by apply upperRange_stop].
    injection H as ->.
    destruct (IH _ _ _ Hrec) as (u & s' & -> & Hu & Hlen & Hk).
    exists (String c u), s'. rewrite append_cons. simpl. rewrite Hc, Hu.
    split_and!; [done|done|lia|lia|].
    destruct u; simpl in Hk; [by rewrite (isUpper_isWord c Hc) in Hk | done].
Qed.

Lemma upperRange_complete (u : string) (hi lo : nat) (k : Cont) (p : bool) (s' r : string) :
  allUpper u = true → (lo ≤ String.length u ≤ hi)%nat → nextIsUpper s' = false →
  k (prevAfter p u) s' = Some r →
  upperRange lo hi k p (u ++ s') = Some r.
Proof.
  revert hi lo p. induction u as [|c u IH]; intros hi lo p Hu Hlen Hnext Hk.
  - rewrite append_nil_l. simpl in *. assert (lo = 0) as -> by lia.
    destruct hi; simpl; [done|]. destruct s' as [|c s']; [done|].
    simpl in Hnext. by rewrite Hnext.
  - simpl in Hu. apply andb_true_iff in Hu as [Hc Hu].
    destruct hi as [|hi]; [simpl in Hlen; lia|].
    rewrite append_cons. simpl. rewrite Hc.
    rewrite (IH hi (pred lo) (isWord c)); [done|done|simpl in Hlen; lia|done|].
    simpl in Hk. destruct u; simpl; [by rewrite (isUpper_isWord c Hc) | done].
Qed.

(** What [TICKER_REGEX] matches at a position is a ticker. *)
Lemma TICKER_REGEX_sound (p : bool) (s r : string) :
  TICKER_REGEX p s = Some r → ∃ t, s = t ++ r ∧ Ticker t.
Proof.
  unfold TICKER_REGEX, wordBoundary at 1. intros H.
  destruct (xorb p (nextIsWord s)); [|done].
  apply upperRange_sound in H as (u & s1 & -> & Hu & Hlen & Hk).
  unfold optional in Hk.
  destruct (literal "." (upperRange 1 3 (wordBoundary accept)) (prevAfter p u) s1)
    as [r'|] eqn:Hgroup.
  - injection Hk as ->. unfold literal in Hgroup.
    destruct s1 as [|c s2]; [done|]. case_decide as Hdot; [subst c|done].
    apply upperRange_sound in Hgroup as (v & s3 & -> & Hv & Hvlen & Hk).
    unfold wordBoundary, accept in Hk.
    destruct (xorb _ _); [|done]. injection Hk as ->.
    exists (u ++ "." ++ v). split.
    + by rewrite !append_assoc.
    + exists u. split_and!; [done|lia|lia|]. right. by exists v.
  - unfold wordBoundary, accept in Hk.
    destruct (xorb _ _); [|done]. injection Hk as ->.
    exists u. split; [done|]. exists u. split_and!; [done|lia|lia|by left].
Qed.

(** A token is followed by the end of the text or by a space. *)
Definition endsToken (rest : string) : Prop :=
  rest = "" ∨ ∃ rest', rest = String " " rest'.

Lemma allUpper_nextIsWord (u s : string) :
  allUpper u = true → (1 ≤ String.length u)%nat → nextIsWord (u ++ s) = true.
Proof.
  destruct u as [|c u]; simpl; [lia|]. intros Hu _.
  apply andb_true_iff in Hu as [Hc _]. rewrite ?append_cons. simpl.
  by apply isUpper_isWord.
Qed.

Lemma prevAfter_nonempty (p : bool) (u : string) :
  (1 ≤ String.length u)%nat → prevAfter p u = true.
Proof. destruct u; simpl; [lia|done]. Qed.

Lemma endsToken_next (rest : string) :
  endsToken rest → nextIsUpper rest = false ∧ nextIsWord rest = false.
Proof. intros [->|(rest' & ->)]; done. Qed.

Lemma boundary_accept (u rest : string) :
  (1 ≤ String.length u)%nat → endsToken rest →
  wordBoundary accept (prevAfter false u) rest = Some rest.
Proof.
  intros Hu Hrest. rewrite prevAfter_nonempty by done.
  unfold wordBoundary, accept. by destruct (endsToken_next rest Hrest) as [_ ->].
Qed.

(** A ticker followed by a space or by the end of the text is matched whole. *)
Lemma TICKER_REGEX_complete (t rest : string) :
  Ticker t → endsToken rest → TICKER_REGEX false (t ++ rest) = Some rest.
Proof.
  intros (u & Hu & Hlen & Ht) Hrest. unfold TICKER_REGEX, wordBoundary at 1.
  destruct Ht as [->|(v & Hv & Hvlen & ->)].
  - rewrite allUpper_nextIsWord by (done || lia). cbn [xorb].
    apply upperRange_complete; [done|lia|by apply endsToken_next|].
    rewrite prevAfter_nonempty by lia. unfold optional.
    assert (literal "." (upperRange 1 3 (wordBoundary accept)) true rest = None) as ->.
    { by destruct Hrest as [->|(rest' & ->)]. }
    rewrite <- (prevAfter_nonempty false u) by lia. apply boundary_accept; [lia|done].
  - rewrite !append_assoc. rewrite allUpper_nextIsWord by (done || lia). cbn [xorb].
    apply upperRange_complete; [done|lia|done|].
    unfold optional. rewrite append_cons, append_nil_l. unfold literal at 1.
    rewrite decide_True by done.
    rewrite (upperRange_complete v 3 1 _ _ rest rest);
      [done|done|lia|by apply endsToken_next|by apply boundary_accept; [lia|]].
Qed.

(** The word-character status after a whole string has been read. *)
Fixpoint lastWord (p : bool) (w : string) : bool :=
  match w with
  | EmptyString => p
  | String c w' => lastWord (isWord c) w'
  end.

Lemma matchAll_skip (w rest : string) (p : bool) :
  matchAll (String.length w) p (w ++ rest) = matchAll 0 (lastWord p w) rest.
Proof.
  revert p. induction w as [|c w IH]; intros p; [done|].
  rewrite append_cons. simpl. apply IH.
Qed.

Lemma lastWord_append (p : bool) (a b : string) :
  lastWord p (a ++ b) = lastWord (lastWord p a) b.
Proof. revert p. induction a as [|c a IH]; intros p; [done|]. rewrite append_cons. apply IH. Qed.

Lemma lastWord_allUpper (p : bool) (u : string) :
  allUpper u = true → (1 ≤ String.length u)%nat → lastWord p u = true.
Proof.
  revert p. induction u as [|c u IH]; intros p Hu Hlen; simpl in *; [lia|].
  apply andb_true_iff in Hu as [Hc Hu].
  destruct u as [|c' u]; [by apply isUpper_isWord|].
  apply IH; [done|simpl; lia].
Qed.

Lemma lastWord_Ticker (p : bool) (t : string) : Ticker t → lastWord p t = true.
Proof.
  intros (u & Hu & Hlen & [->|(v & Hv & Hvlen & ->)]).
  - apply lastWord_allUpper; [done|lia].
  - rewrite !lastWord_append. apply lastWord_allUpper; [done|lia].
Qed.

Lemma Ticker_nonempty (t : string) : Ticker t → ∃ c t', t = String c t'.
Proof.
  intros (u & Hu & Hlen & Ht). destruct u as [|c u]; [simpl in Hlen; lia|].
  destruct Ht as [->|(v & _ & _ & ->)]; eauto.
Qed.

Lemma matchAll_token (t rest : string) :
  Ticker t → endsToken rest →
  matchAll 0 false (t ++ rest) = t :: matchAll 0 true rest.
Proof.
  intros Ht Hrest. pose proof (TICKER_REGEX_complete t rest Ht Hrest) as Hre.
  pose proof (lastWord_Ticker false t Ht) as Hlast.
  pose proof (matched_prefix t rest) as Hsub.
  pose proof (length_append t rest) as Hlen.
  destruct (Ticker_nonempty t Ht) as (c & t' & ->).
  rewrite append_cons in *. cbn [matchAll]. rewrite Hre, Hsub. f_equal.
  rewrite Hlen. simpl in Hlast |- *.
  replace (S (String.length t' + String.length rest) - String.length rest - 1)
    with (String.length t') by lia.
  by rewrite matchAll_skip, Hlast.
Qed.

Lemma matchAll_space (rest : string) :
  matchAll 0 true (String " " rest) = matchAll 0 false rest.
Proof. reflexivity. Qed.

(** Matching the tickers joined by single spaces gives the tickers back. *)
Lemma matchAll_join (tokens : list string) :
  Forall Ticker tokens → matchAll 0 false (String.concat " " tokens) = tokens.
Proof.
  induction 1 as [|t tokens Ht Htokens IH]; [done|].
  destruct tokens as [|t2 tokens].
  - simpl. rewrite <- (append_nil_r t) at 1.
    rewrite matchAll_token; [done|done|by left].
  - change (String.concat " " (t :: t2 :: tokens))
      with (t ++ String " " (String.concat " " (t2 :: tokens))).
    rewrite matchAll_token; [|done|right; eauto].
    by rewrite matchAll_space, IH.
Qed.

(** Every match is a ticker. *)
Lemma matchAll_sound (s : string) (skip : nat) (p : bool) :
  Forall Ticker (matchAll skip p s).
Proof.
  revert skip p. induction s as [|c s IH]; intros skip p; [constructor|].
  cbn [matchAll]. destruct skip as [|n]; [|apply IH].
  destruct (TICKER_REGEX p (String c s)) as [rest|] eqn:Hre; [|apply IH].
  constructor; [|apply IH].
  apply TICKER_REGEX_sound in Hre as (t & Hs & Ht).
  rewrite Hs, matched_prefix. done.
Qed.

(** *** Tokens *)

Lemma isUpper_not_isLower (c : ascii) : isUpper c = true → isLower c = false.
Proof.
  unfold isUpper, isLower. intros H. apply andb_true_iff in H as [_ H].
  apply Nat.leb_le in H. apply andb_false_iff. left. apply Nat.leb_gt. lia.
Qed.

Lemma stripNonWord_append (a b : string) :
  stripNonWord (a ++ b) = stripNonWord a ++ stripNonWord b.
Proof.
  induction a as [|c a IH]; [done|]. rewrite append_cons. simpl.
  destruct (isWord c || (code c =? 46)%nat); [|done].
  by rewrite append_cons, IH.
Qed.

Lemma toUpperCase_append (a b : string) :
  toUpperCase (a ++ b) = toUpperCase a ++ toUpperCase b.
Proof.
  induction a as [|c a IH]; [done|]. rewrite append_cons. simpl.
  by rewrite append_cons, IH.
Qed.

Lemma allUpper_fixed (u : string) :
  allUpper u = true → stripNonWord u = u ∧ toUpperCase u = u.
Proof.
  induction u as [|c u IH]; simpl; [done|]. intros H.
  apply andb_true_iff in H as [Hc Hu]. destruct (IH Hu) as [-> ->].
  rewrite (isUpper_isWord c Hc). unfold upperChar.
  by rewrite (isUpper_not_isLower c Hc).
Qed.

(** Cleaning and upper-casing leave a ticker unchanged. *)
Lemma Ticker_fixed (t : string) :
  Ticker t → stripNonWord t = t ∧ toUpperCase t = t.
Proof.
  intros (u & Hu & _ & [->|(v & Hv & _ & ->)]); [by apply allUpper_fixed|].
  rewrite !stripNonWord_append, !toUpperCase_append.
  destruct (allUpper_fixed u Hu) as [-> ->].
  destruct (allUpper_fixed v Hv) as [-> ->]. done.
Qed.

(** The filter of the extraction loop: the symbol a match contributes. *)
Definition acceptToken (raw : string) : option string :=
  let token := stripNonWord raw in
  if bool_decide (token = "") || (String.length token <? 3)%nat then None
  else
    let upper := toUpperCase token in
    if isStopWord upper then None
    else
      let normalized := default upper (PRIMARY_ALIAS_MAP !! upper) in
      if isStopWord normalized then None else Some normalized.

Lemma extractToken_accept (target : list string) (raw : string) :
  extractToken target raw =
    match acceptToken raw with
    | Some x => JsSet.add target x
    | None => target
    end.
Proof.
  unfold extractToken, acceptToken.
  destruct (bool_decide (stripNonWord raw = "") || _); [done|].
  destruct (isStopWord (toUpperCase (stripNonWord raw))); [done|].
  by destruct (isStopWord _).
Qed.

Lemma foldl_extractToken (raws : list string) (target : list string) :
  foldl extractToken target raws = foldl JsSet.add target (omap acceptToken raws).
Proof.
  revert target. induction raws as [|raw raws IH]; intros target; [done|].
  cbn [foldl omap list_omap]. rewrite IH, extractToken_accept.
  by destruct (acceptToken raw).
Qed.

Lemma extractFromText_eq (target : list string) (text : string) :
  extractFromText target text =
    foldl JsSet.add target (omap acceptToken (matchAll 0 false (normalizePhrases text))).
Proof.
  unfold extractFromText. case_bool_decide as Htext.
  - subst text. done.
  - apply foldl_extractToken.
Qed.

Lemma symbolsOfText_eq (text : string) :
  symbolsOfText text =
    JsSet.of_list (omap acceptToken (matchAll 0 false (normalizePhrases text))).
Proof.
  unfold symbolsOfText, collectSymbols; simpl.
  rewrite extractFromText_eq. fold (JsSet.of_list (omap acceptToken (matchAll 0 false (normalizePhrases text)))).
  by destruct (JsSet.of_list _).
Qed.

Lemma alias_values (k v : string) :
  PRIMARY_ALIAS_MAP !! k = Some v → v ∈ ["SPY"; "QQQ"; "DIA"].
Proof.
  intros H. apply elem_of_list_to_map_2 in H.
  repeat (apply elem_of_cons in H as [H|H]; [injection H as -> ->; set_solver|]).
  by apply elem_of_nil in H.
Qed.

(** A symbol that the loop accepts unchanged. *)
Definition Stable (x : string) : Prop := Ticker x ∧ acceptToken x = Some x.

Lemma Ticker_letters (u : string) :
  allUpper u = true → (2 ≤ String.length u ≤ 6)%nat → Ticker u.
Proof. intros Hu Hlen. exists u. split_and!; [done|lia|lia|by left]. Qed.

Lemma alias_Stable (v : string) : v ∈ ["SPY"; "QQQ"; "DIA"] → Stable v.
Proof.
  intros H. repeat (apply elem_of_cons in H as [->|H]);
    [split; [apply Ticker_letters; [done|simpl; lia] | by vm_compute] ..|].
  by apply elem_of_nil in H.
Qed.

(** The symbol contributed by a ticker is stable. *)
Lemma accept_Stable (raw x : string) :
  Ticker raw → acceptToken raw = Some x → Stable x.
Proof.
  intros Hraw Hacc. pose proof Hacc as Hacc'. unfold acceptToken in Hacc.
  destruct (Ticker_fixed raw Hraw) as [Hstrip Hupper].
  rewrite Hstrip, Hupper in Hacc.
  destruct (bool_decide (raw = "") || _); [done|].
  destruct (isStopWord raw); [done|].
  destruct (PRIMARY_ALIAS_MAP !! raw) as [v|] eqn:Halias; simpl in Hacc.
  - destruct (isStopWord v); [done|]. injection Hacc as <-.
    by apply alias_Stable, (alias_values raw).
  - destruct (isStopWord raw); [done|]. injection Hacc as <-. by split.
Qed.

Lemma symbolsOfText_Stable (text : string) : Forall Stable (symbolsOfText text).
Proof.
  rewrite symbolsOfText_eq. apply Forall_forall. intros x Hx.
  apply JsSet.elem_of_of_list, list_elem_of_omap in Hx as (raw & Hraw & Hacc).
  apply (accept_Stable raw); [|done].
  pose proof (matchAll_sound (normalizePhrases text) 0 false) as Hall.
  rewrite Forall_forall in Hall. by apply Hall.
Qed.

Lemma omap_accept_Stable (l : list string) : Forall Stable l → omap acceptToken l = l.
Proof.
  induction 1 as [|x l [_ Hx] _ IH]; [done|].
  cbn [omap list_omap]. by rewrite Hx, IH.
Qed.

(** *** The length threshold of [extractFromText] *)

(** C3 (as amended): the symbols [extractFromText] leaves in the set are those
    already there and, for every match of [TICKER_REGEX] in the normalised
    text whose cleaned token has at least 3 characters and is not a stop word
    before or after alias mapping, the alias-mapped token; no other symbol is
    added, so a token is dropped on length grounds exactly when it is shorter
    than 3 characters. *)
Theorem extractFromText_length_threshold (target : list string) (text x : string) :
  x ∈ extractFromText target text ↔
  x ∈ target ∨
  ∃ raw, raw ∈ matchAll 0 false (normalizePhrases text) ∧
    let token := stripNonWord raw in
    let upper := toUpperCase token in
    let normalized := default upper (PRIMARY_ALIAS_MAP !! upper) in
    (3 ≤ String.length token)%nat ∧
    isStopWord upper = false ∧
    isStopWord normalized = false ∧
    x = normalized.
Proof.
  rewrite extractFromText_eq, JsSet.elem_of_foldl_add, list_elem_of_omap.
  apply or_iff_compat_l. split.
  - intros (raw & Hraw & Hacc). exists raw. split; [done|].
    unfold acceptToken in Hacc. cbv zeta.
    destruct (bool_decide (stripNonWord raw = "")); [done|]. cbn [orb] in Hacc.
    destruct (String.length (stripNonWord raw) <? 3)%nat eqn:Hlen; [done|].
    apply Nat.ltb_ge in Hlen.
    destruct (isStopWord (toUpperCase (stripNonWord raw))); [done|].
    destruct (isStopWord (default _ _)); [done|].
    split_and!; [done..|].
    symmetry. exact (f_equal (default "") Hacc).
  - cbv zeta. intros (raw & Hraw & Hlen & Hs1 & Hs2 & ->). exists raw. split; [done|].
    unfold acceptToken. rewrite Hs1, Hs2.
    rewrite bool_decide_eq_false_2 by (intros E; rewrite E in Hlen; simpl in Hlen; lia).
    apply Nat.ltb_ge in Hlen. by rewrite Hlen.
Qed.

(** C3 as stated fails: the two-letter ticker [VT] is matched by
    [TICKER_REGEX], is no stop word, and is nevertheless dropped. *)
Lemma extractFromText_two_letters_counterexample :
  ¬ (∀ (target : list string) (text raw : string),
       raw ∈ matchAll 0 false (normalizePhrases text) →
       let token := stripNonWord raw in
       let upper := toUpperCase token in
       let normalized := default upper (PRIMARY_ALIAS_MAP !! upper) in
       (2 ≤ String.length token)%nat →
       isStopWord upper = false →
       isStopWord normalized = false →
       normalized ∈ extractFromText target text).
Proof.
  intros H. specialize (H [] "VT" "VT").
  assert (Hraw : "VT" ∈ matchAll 0 false (normalizePhrases "VT")).
  { vm_compute. apply list_elem_of_singleton. reflexivity. }
  specialize (H Hraw). cbv zeta in H.
  assert (Hlen : (2 ≤ String.length (stripNonWord "VT"))%nat).
  { vm_compute. lia. }
  specialize (H Hlen).
  assert (Hstop : isStopWord (toUpperCase (stripNonWord "VT")) = false).
  { vm_compute. reflexivity. }
  specialize (H Hstop).
  assert (Hstop' : isStopWord (default (toUpperCase (stripNonWord "VT"))
                     (PRIMARY_ALIAS_MAP !! toUpperCase (stripNonWord "VT"))) = false).
  { vm_compute. reflexivity. }
  specialize (H Hstop').
  vm_compute in H. by apply elem_of_nil in H.
Qed.

(** *** Determinism, order and idempotence of the extraction *)

(** C7 (as amended): extraction from a text is a function of the text; its
    result lists, without duplicates and in order of first appearance, the
    symbols contributed by the matches; and extracting again from the
    space-joined result gives the same list whenever phrase normalisation
    leaves that joined text unchanged. *)
Theorem symbolsOfText_ordered_idempotent (text : string) :
  (∀ text', text' = text → symbolsOfText text' = symbolsOfText text) ∧
  symbolsOfText text =
    JsSet.firstOccurrences
      (omap acceptToken (matchAll 0 false (normalizePhrases text))) ∧
  NoDup (symbolsOfText text) ∧
  (normalizePhrases (String.concat " " (symbolsOfText text)) =
     String.concat " " (symbolsOfText text) →
   symbolsOfText (String.concat " " (symbolsOfText text)) = symbolsOfText text).
Proof.
  split_and!.
  - by intros text' ->.
  - rewrite symbolsOfText_eq. apply JsSet.of_list_first.
  - rewrite symbolsOfText_eq. apply JsSet.of_list_NoDup.
  - intros Hnorm. pose proof (symbolsOfText_Stable text) as Hst.
    rewrite (symbolsOfText_eq (String.concat " " (symbolsOfText text))), Hnorm.
    rewrite matchAll_join by (eapply Forall_impl; [exact Hst | by intros x [Hx _]]).
    rewrite omap_accept_Stable by done.
    apply JsSet.of_list_NoDup_id. rewrite symbolsOfText_eq. apply JsSet.of_list_NoDup.
Qed.

Definition sampleRequest : string :=
  "Compara VOO e VWCE.DE con il NASDAQ, poi VOO e SPX".

Lemma symbolsOfText_ordered_idempotent_witness :
  symbolsOfText sampleRequest = ["VOO"; "VWCE.DE"; "QQQ"; "SPY"] ∧
  symbolsOfText (String.concat " " (symbolsOfText sampleRequest)) =
    symbolsOfText sampleRequest.
Proof.
  split; [by vm_compute|].
  destruct (symbolsOfText_ordered_idempotent sampleRequest) as (_ & _ & _ & Hidem).
  apply Hidem. by vm_compute.
Defined.

(** C7 as stated fails: the symbols of ["XDOW,JONES"], joined by a space,
    contain the phrase [DOW JONES], which normalisation rewrites. *)
Lemma symbolsOfText_idempotence_counterexample :
  ¬ (∀ text : string,
       symbolsOfText (String.concat " " (symbolsOfText text)) = symbolsOfText text).
Proof.
  intros H. specialize (H "XDOW,JONES"). vm_compute in H. discriminate.
Qed.

End TickerFacts.

(** ** Conversions between strings and numbers *)

Module JsConv.
Import Tickers.

(** White space and line terminators among the code units below 256: tab
    to carriage return, the space and the no-break space. *)
Definition isSpace (c : ascii) : bool :=
  ((9 <=? code c)%nat && (code c <=? 13)%nat) || (code c =? 32)%nat
  || (code c =? 160)%nat.

Fixpoint trimStart (s : string) : string :=
  match s with
  | String c s' => if isSpace c then trimStart s' else s
  | EmptyString => EmptyString
  end.

(** [trimEnd]: a character is dropped when only white space follows it. *)
Fixpoint trimEnd (s : string) : string :=
  match s with
  | String c s' =>
      match trimEnd s' with
      | EmptyString => if isSpace c then EmptyString else String c EmptyString
      | rest => String c rest
      end
  | EmptyString => EmptyString
  end.

Definition trim (s : string) : string := trimEnd (trimStart s).

(** The decimal digits at the head of [s]: their value continuing [acc],
    their number continuing [n], and what follows them. *)
Fixpoint readDigits (s : string) (acc : Z) (n : nat) : Z * nat * string :=
  match s with
  | String c s' =>
      if isDigit c
      then readDigits s' (10 * acc + Z.of_nat (code c - 48)) (S n)
      else (acc, n, s)
  | EmptyString => (acc, n, s)
  end.

(** The binary64 number nearest to [N / D] (ties to even), through the
    division of the floating-point specification. *)
Definition ratioToFloat (neg : bool) (N D : positive) : float :=
  SF2Prim (SFdiv prec emax (S754_finite neg N 0) (S754_finite false D 0)).

(** The number nearest to [M * 10 ^ e10]. *)
Definition decimalToFloat (neg : bool) (M e10 : Z) : float :=
  match M with
  | Z.pos m =>
      if (0 <=? e10)%Z
      then ratioToFloat neg (m * Z.to_pos (10 ^ e10)) 1
      else ratioToFloat neg m (Z.to_pos (10 ^ (- e10)))
  | _ => if neg then PrimFloat.neg_zero else PrimFloat.zero
  end.

(** An optional sign. *)
Definition readSign (s : string) : bool * string :=
  match s with
  | String "-" s' => (true, s')
  | String "+" s' => (false, s')
  | _ => (false, s)
  end.

(** An exponent part [e[+-]digits]; it is read only when complete. *)
Definition readExponent (s : string) : Z * string :=
  match s with
  | String c s' =>
      if (code c =? 101)%nat || (code c =? 69)%nat then
        let '(neg, s'') := readSign s' in
        let '(v, n, rest) := readDigits s'' 0 0 in
        match n with
        | 0 => (0%Z, s)
        | _ => ((if neg then - v else v)%Z, rest)
        end
      else (0%Z, s)
  | EmptyString => (0%Z, s)
  end.

(** The longest prefix of [s] that is a [StrDecimalLiteral], with its value
    and the text that follows it. *)
Definition readDecimal (s : string) : option (float * string) :=
  let '(neg, s1) := readSign s in
  if String.prefix "Infinity" s1
  then Some (if neg then PrimFloat.neg_infinity else PrimFloat.infinity, substring 8 (String.length s1 - 8) s1)
  else
    let '(vi, ni, s2) := readDigits s1 0 0 in
    let '(v, nf, s3) :=
      match s2 with
      | String "." s2' => readDigits s2' vi 0
      | _ => (vi, 0, s2)
      end in
    match ni + nf with
    | 0 => None
    | _ =>
        let '(e, rest) := readExponent s3 in
        Some (decimalToFloat neg v (e - Z.of_nat nf), rest)
    end.

(** [parseFloat] applied to a string. *)
Definition parseFloat (s : string) : float :=
  match readDecimal (trimStart s) with
  | Some (x, _) => x
  | None => nan
  end.

(** [Number] applied to a string. Literals in another radix ([0x], [0o],
    [0b]) are not modelled: they are answered [NaN] here. *)
Definition Number (s : string) : float :=
  match trim s with
  | EmptyString => PrimFloat.zero
  | t =>
      match readDecimal t with
      | Some (x, EmptyString) => x
      | _ => nan
      end
  end.

(** The decimal digits of a natural number. *)
Definition digitsOf (n : Z) : string :=
  NilZero.string_of_uint (N.to_uint (Z.to_N n)).

Fixpoint zeros (n : nat) : string :=
  match n with
  | 0 => EmptyString
  | S n' => String "0" (zeros n')
  end.

(** The digits of [n] with a decimal point before the last [f] of them. *)
Definition fixedDigits (n : Z) (f : nat) : string :=
  let m := digitsOf n in
  match f with
  | 0 => m
  | _ =>
      let m := zeros (f + 1 - String.length m) ++ m in
      let k := String.length m in
      substring 0 (k - f) m ++ "." ++ substring (k - f) f m
  end.

(** The integer nearest to [m * 2^e * 10^f], the larger one on a tie. *)
Definition scaledRound (m : positive) (e : Z) (f : nat) : Z :=
  let num := (Z.pos m * 10 ^ Z.of_nat f)%Z in
  if (0 <=? e)%Z then (num * 2 ^ e)%Z
  else
    let den := (2 ^ (- e))%Z in
    ((2 * num + den) / (2 * den))%Z.

(** [m * 2^e >= 10^21] *)
Definition atLeast1e21 (m : positive) (e : Z) : bool :=
  if (0 <=? e)%Z then (10 ^ 21 <=? Z.pos m * 2 ^ e)%Z
  else (10 ^ 21 * 2 ^ (- e) <=? Z.pos m)%Z.

Section ToFixed.
(** [Number::toString], which [toFixed] uses from [1e21] on. *)
Variable numberToString : float → string.

(** [x.toFixed(f)] *)
Definition toFixed (x : float) (f : nat) : string :=
  match Prim2SF x with
  | S754_nan => "NaN"
  | S754_infinity s => if s then "-Infinity" else "Infinity"
  | S754_zero _ => fixedDigits 0 f
  | S754_finite s m e =>
      (if s then "-" else "") ++
      (if atLeast1e21 m e then numberToString (abs x)
       else fixedDigits (scaledRound m e f) f)
  end.

End ToFixed.

End JsConv.


(** ** Asynchronous code with exceptions

    An asynchronous function is modelled by the list of the external events
    it performed, in order, and its outcome: the value it resolved to, or the
    value it threw (the rejection of its promise). *)

Module Effects.

(** A thrown value: an [Error] with its message, or another value with its
    [String(...)] rendering. *)
Inductive Thrown :=
  | ThrownError (message : string)
  | ThrownOther (rendering : string).

Inductive Outcome (A : Type) :=
  | Resolved (a : A)
  | Rejected (e : Thrown).
Arguments Resolved {A} a.
Arguments Rejected {A} e.

Definition M (E A : Type) : Type := list E * Outcome A.

Definition ret {E A : Type} (a : A) : M E A := ([], Resolved a).

Definition throw {E A : Type} (e : Thrown) : M E A := ([], Rejected e).

Definition bind {E A B : Type} (m : M E A) (k : A → M E B) : M E B :=
  match m with
  | (t, Resolved a) => let '(t', r) := k a in ((t ++ t')%list, r)
  | (t, Rejected e) => (t, Rejected e)
  end.

(** [try { m } catch (e) { h e }] *)
Definition tryCatch {E A : Type} (m : M E A) (h : Thrown → M E A) : M E A :=
  match m with
  | (t, Rejected e) => let '(t', r) := h e in ((t ++ t')%list, r)
  | (t, Resolved a) => (t, Resolved a)
  end.

(** Awaiting an external call that is not recorded. *)
Definition lift {E A : Type} (o : Outcome A) : M E A := ([], o).

(** Awaiting an external call recorded as the event [ev]. *)
Definition perform {E A : Type} (ev : E) (o : Outcome A) : M E A := ([ev], o).

(** [promise.catch(() => fallback)] *)
Definition orElse {A : Type} (o : Outcome A) (fallback : A) : A :=
  match o with Resolved a => a | Rejected _ => fallback end.

(** [error instanceof Error ? error.message : other] *)
Definition messageOr (e : Thrown) (other : string → string) : string :=
  match e with
  | ThrownError message => message
  | ThrownOther rendering => other rendering
  end.

Declare Scope effect_scope.
Delimit Scope effect_scope with effect.
Notation "'let!' x ':=' m 'in' k" := (bind m (fun x => k))
  (at level 10, x name, m at level 100, k at level 200) : effect_scope.
Notation "m ';;' k" := (bind m (fun _ => k))
  (at level 100, k at level 200, right associativity) : effect_scope.

End Effects.

(** ** [plugin-hyperliquid]: the [PRICE_CHECK] action *)

Module Hyperliquid.
Import Effects.
Local Open Scope effect_scope.

Record TokenInfo := { tk_name : string; tk_szDecimals : Z }.

(** [AssetContext]: [midPx] may be [null]. *)
Record AssetContext := {
  ctx_coin : string;
  ctx_midPx : option string;
  ctx_prevDayPx : string;
  ctx_dayNtlVlm : string
}.

Record State := { recentMessagesString : option string }.

(** The [content] of a reply. *)
Inductive ReplyContent :=
  | PriceContent (symbol : string) (price : float) (dayChange volume : string)
  | ErrorContent (error : string).

Record Reply := { reply_text : string; reply_content : ReplyContent }.

(** The collaborators of the handler: the runtime, the XML parser of the
    host and the SDK. A call is given by its outcome. *)
Record Env := {
  composeState : Outcome State;
  useModel : string → Outcome string;
  parseKeyValueXml : string → option (gmap string string);
  connect : Outcome unit;
  getSpotMetaAndAssetCtxs : Outcome (list TokenInfo * list AssetContext)
}.

(** [new HyperliquidError(message)] *)
Definition HyperliquidError (message : string) : Thrown := ThrownError message.

(** [array.findIndex(p)], [None] for [-1]. *)
Fixpoint findIndex {A : Type} (p : A → bool) (l : list A) : option nat :=
  match l with
  | [] => None
  | x :: l' => if p x then Some 0 else S <$> findIndex p l'
  end.

Section PriceCheck.
(** [Number::toString] and [String.prototype.replace]. *)
Variable numberToString : float → string.
Variable replace : string → string → string → string.
Variable priceCheckTemplate : string.

(** [marketCtx && marketCtx.midPx]: the context with its mid price, when the
    price is neither [null] nor empty. *)
Definition usableCtx (marketCtx : AssetContext) : option (AssetContext * string) :=
  match ctx_midPx marketCtx with
  | None | Some "" => None
  | Some midPx => Some (marketCtx, midPx)
  end.

(** The body of the [try] block. The callback records the reply. *)
Definition checkPrice (env : Env) (state : option State) (callback : bool)
    : M Reply bool :=
  let! currentState :=
    match state with
    | Some st => ret st
    | None => lift (composeState env)
    end in
  let contextPrompt :=
    replace priceCheckTemplate "{{recentMessages}}"
      (default "" (recentMessagesString currentState)) in
  let! result := lift (useModel env contextPrompt) in
  let parsedContent := parseKeyValueXml env result in
  match parsedContent ≫= (fun fields => fields !! "symbol") with
  | None | Some "" =>
      throw (HyperliquidError "Could not determine which token price to check")
  | Some symbol =>
      lift (connect env) ;;
      let! market := lift (getSpotMetaAndAssetCtxs env) in
      let '(tokens, assetCtxs) := market in
      match findIndex (fun token => bool_decide
              (Tickers.toUpperCase (tk_name token) = Tickers.toUpperCase symbol)) tokens with
      | None => throw (HyperliquidError ("Could not find token " ++ symbol))
      | Some _ =>
          match findIndex (fun ctx => bool_decide (ctx_coin ctx = symbol ++ "-SPOT"))
                  assetCtxs with
          | None => throw (HyperliquidError ("Could not find market for " ++ symbol))
          | Some marketIndex =>
              match (assetCtxs !! marketIndex) ≫= usableCtx with
              | None =>
                  throw (HyperliquidError ("Could not get market price for " ++ symbol))
              | Some (marketCtx, midPx) =>
                  let price := JsConv.Number midPx in
                  let prev := JsConv.Number (ctx_prevDayPx marketCtx) in
                  let dayChange :=
                    JsConv.toFixed numberToString ((price - prev) / prev * 100)%float 2 in
                  let volume :=
                    JsConv.toFixed numberToString (JsConv.Number (ctx_dayNtlVlm marketCtx)) 2 in
                  (if callback then
                     perform
                       {| reply_text :=
                            symbol ++ " price: " ++ JsConv.toFixed numberToString price 2
                            ++ " USDC (24h change: " ++ dayChange ++ "%, volume: "
                            ++ volume ++ " USDC)";
                          reply_content := PriceContent symbol price dayChange volume |}
                       (Resolved tt)
                   else ret tt) ;;
                  ret true
              end
          end
      end
  end.

(** [priceCheck.handler] *)
Definition handler (env : Env) (state : option State) (callback : bool)
    : M Reply bool :=
  tryCatch (checkPrice env state callback)
    (fun error =>
       let errorMessage := messageOr error (fun rendering => rendering) in
       (if callback then
          perform
            {| reply_text := "Error checking price: " ++ errorMessage;
               reply_content := ErrorContent errorMessage |}
            (Resolved tt)
        else ret tt) ;;
       ret false).

End PriceCheck.

(** *** The mocks of the test suite *)

Definition mockState : State :=
  {| recentMessagesString := Some "Test recent messages" |}.

Definition mockMarket : list TokenInfo * list AssetContext :=
  ( [ {| tk_name := "HYPE"; tk_szDecimals := 2 |};
      {| tk_name := "ETH"; tk_szDecimals := 4 |};
      {| tk_name := "PIP"; tk_szDecimals := 2 |} ],
    [ {| ctx_coin := "HYPE-SPOT"; ctx_midPx := Some "20.50";
         ctx_prevDayPx := "20.00"; ctx_dayNtlVlm := "1000000" |};
      {| ctx_coin := "ETH-SPOT"; ctx_midPx := Some "3500.00";
         ctx_prevDayPx := "3400.00"; ctx_dayNtlVlm := "50000000" |};
      {| ctx_coin := "PIP-SPOT"; ctx_midPx := Some "19.73";
         ctx_prevDayPx := "20.10"; ctx_dayNtlVlm := "1053445.75" |} ] ).

(** The runtime and SDK mocks, with a model whose reply is parsed to the
    given symbol. *)
Definition mockEnv (symbol : string) : Env :=
  {| composeState := Resolved mockState;
     useModel := fun _ => Resolved ("<response><symbol>" ++ symbol ++ "</symbol></response>");
     parseKeyValueXml := fun _ => Some {[ "symbol" := symbol ]};
     connect := Resolved tt;
     getSpotMetaAndAssetCtxs := Resolved mockMarket |}.

(** C9: against the mocked market data and with the symbol [PIP] extracted,
    the handler calls back once, with the expected text, and returns [true]. *)
Theorem priceCheck_PIP
    (numberToString : float → string)
    (replace : string → string → string → string)
    (priceCheckTemplate : string) :
  handler numberToString replace priceCheckTemplate (mockEnv "PIP") (Some mockState) true =
    ( [ {| reply_text :=
             "PIP price: 19.73 USDC (24h change: -1.84%, volume: 1053445.75 USDC)";
           reply_content :=
             PriceContent "PIP" (JsConv.Number "19.73") "-1.84" "1053445.75" |} ],
      Resolved true ).
Proof. vm_compute. reflexivity. Qed.

(** *** The [SPOT_TRADE] action *)

Record SpotOrder := {
  so_coin : string;
  so_is_buy : bool;
  so_sz : float;
  so_limit_px : option float
}.

(** [order_type] of an [OrderRequest]: [{ market: {} }] or
    [{ limit: { tif } }] with its price. *)
Inductive OrderType :=
  | Market
  | Limit (limit_px : float) (tif : string).

Record OrderRequest := {
  rq_coin : string;
  rq_is_buy : bool;
  rq_sz : float;
  rq_order_type : OrderType
}.

Inductive TradeEvent :=
  | PlaceOrder (request : OrderRequest)
  | TradeReply (success : bool).

(** Modelled from the spec: the handler of [actions/spotTrade.ts], which is
    not among the sources (its prompt template, its test suite and the
    declaration of the SDK are). By the spec, the order extracted by the
    model from the text is sent to the exchange with its size and side, as
    a market order when no limit price was extracted; the action reports
    success when the exchange accepts the order. [placeOrder] gives the
    outcome of the exchange call: the error of the order status, if any. *)
Definition spotTrade (extracted : option SpotOrder)
    (placeOrder : OrderRequest → Outcome (option string)) : M TradeEvent bool :=
  tryCatch
    (match extracted with
     | None => throw (HyperliquidError "Could not parse order details")
     | Some order =>
         let request :=
           {| rq_coin := so_coin order ++ "-SPOT";
              rq_is_buy := so_is_buy order;
              rq_sz := so_sz order;
              rq_order_type :=
                match so_limit_px order with
                | None => Market
                | Some px => Limit px "Gtc"
                end |} in
         let! status := perform (PlaceOrder request) (placeOrder request) in
         match status with
         | Some error => throw (HyperliquidError error)
         | None => perform (TradeReply true) (Resolved tt) ;; ret true
         end
     end)
    (fun _ => perform (TradeReply false) (Resolved tt) ;; ret false).

(** What the mocked model extracts from ["Buy 1 HYPE"]. *)
Definition buyOneHype : SpotOrder :=
  {| so_coin := "HYPE"; so_is_buy := true; so_sz := 1%float; so_limit_px := None |}.

(** The mocked exchange accepts every order. *)
Definition mockPlaceOrder (request : OrderRequest) : Outcome (option string) :=
  Resolved None.

(** C10: for ["Buy 1 HYPE"], the exchange is called once, with a market
    order of size 1 on the buy side, and the action reports success. *)
Theorem spotTrade_buy_one_HYPE :
  spotTrade (Some buyOneHype) mockPlaceOrder =
    ( [ PlaceOrder {| rq_coin := "HYPE-SPOT"; rq_is_buy := true;
                      rq_sz := 1%float; rq_order_type := Market |};
        TradeReply true ],
      Resolved true ).
Proof. reflexivity. Qed.

End Hyperliquid.

(** ** JSON documents, as the HTTP client hands them over *)

Module Json.
Import Effects.

(** The result of [response.json()]. The fields of an object are its own
    properties in enumeration order, each key once. *)
#[warnings="-register-all"]
Inductive Json :=
  | JsonNull
  | JsonBool (b : bool)
  | JsonNumber (x : float)
  | JsonString (s : string)
  | JsonArray (items : list Json)
  | JsonObject (fields : list (string * Json)).

Definition truthy (v : Json) : bool :=
  match v with
  | JsonNull => false
  | JsonBool b => b
  | JsonNumber x => JsNumber.truthy x
  | JsonString s => negb (bool_decide (s = ""))
  | JsonArray _ | JsonObject _ => true
  end.

(** Truthiness of a value that may be [undefined]. *)
Definition truthyOpt (o : option Json) : bool := from_option truthy false o.

Fixpoint assoc (key : string) (fields : list (string * Json)) : option Json :=
  match fields with
  | [] => None
  | (k, v) :: rest => if bool_decide (k = key) then Some v else assoc key rest
  end.

(** [value[key]] for a property name that is neither an index nor
    [length]: a [TypeError] on [null], [undefined] on any other value that
    is not an object. *)
Definition prop (v : Json) (key : string) : Outcome (option Json) :=
  match v with
  | JsonNull => Rejected (ThrownError "Cannot read properties of null")
  | JsonObject fields => Resolved (assoc key fields)
  | _ => Resolved None
  end.

(** [Object.entries(value)] of an object or an array. *)
Definition entries (v : Json) : list (string * Json) :=
  match v with
  | JsonObject fields => fields
  | JsonArray items => imap (fun i item => (JsConv.digitsOf (Z.of_nat i), item)) items
  | _ => []
  end.

Section ToString.
Variable numberToString : float → string.

(** [String(value)] *)
Fixpoint toString (v : Json) : string :=
  match v with
  | JsonNull => "null"
  | JsonBool b => if b then "true" else "false"
  | JsonNumber x => numberToString x
  | JsonString s => s
  | JsonArray items =>
      String.concat ","
        (map (fun item => match item with JsonNull => "" | _ => toString item end) items)
  | JsonObject _ => "[object Object]"
  end.

(** [parseFloat(value)] for a value that may be [undefined]. *)
Definition parseFloatOf (o : option Json) : float :=
  match o with
  | None => nan
  | Some v => JsConv.parseFloat (toString v)
  end.

End ToString.

End Json.

(** ** [providers/alphaVantage.ts] and [providers/stooq.ts] *)

Module Providers.
Import Effects Types Json.
Local Open Scope effect_scope.

Record Rip2EtfSettings := {
  ALPHAVANTAGE_API_KEY : string;
  FMP_API_KEY : string;
  FINNHUB_API_KEY : string;
  FRED_API_KEY : string;
  DEBUG : bool;
  ENABLE_ALPHA_VANTAGE : bool;
  ENABLE_FMP : bool;
  ENABLE_FINNHUB : bool
}.

(** The external events of the pipeline. *)
Inductive Event :=
  | HttpGet (url : string)
  | RenderChart (title : string)
  | WriteFile (path : string)
  | Reply (text : string).

(** [array.sort(compare)]: the stable sort. An element is inserted before
    the first element it does not exceed. *)
Section Sort.
Context {A : Type} (compare : A → A → Z).

Fixpoint insertSorted (x : A) (l : list A) : list A :=
  match l with
  | [] => [x]
  | y :: l' => if (compare x y <=? 0)%Z then x :: y :: l' else y :: insertSorted x l'
  end.

Definition sortWith (l : list A) : list A := foldr insertSorted [] l.

End Sort.

(** [s.includes(pat)] *)
Fixpoint includes (pat s : string) : bool :=
  String.prefix pat s ||
  match s with
  | String _ s' => includes pat s'
  | EmptyString => false
  end.

(** [/pat/i.test(s)] for a literal pattern. *)
Fixpoint includesCI (pat s : string) : bool :=
  Tickers.prefixCI pat s ||
  match s with
  | String _ s' => includesCI pat s'
  | EmptyString => false
  end.

(** [s.split(sep)] for a separator of one character. *)
Fixpoint splitOn (sep : ascii) (s : string) : list string :=
  match s with
  | EmptyString => [EmptyString]
  | String c s' =>
      if bool_decide (c = sep) then EmptyString :: splitOn sep s'
      else
        match splitOn sep s' with
        | head :: tail => String c head :: tail
        | [] => [String c EmptyString]
        end
  end.

(** Lower-casing of one code unit below 256: the capital letters [A-Z] and
    those of the Latin-1 supplement (all of [U+00C0..U+00DE] but the
    multiplication sign). *)
Definition lowerChar (c : ascii) : ascii :=
  if Tickers.isUpper c
     || ((192 <=? Tickers.code c)%nat && (Tickers.code c <=? 222)%nat
         && negb (Tickers.code c =? 215)%nat)
  then ascii_of_nat (Tickers.code c + 32) else c.

(** [s.toLowerCase()] *)
Fixpoint toLowerCase (s : string) : string :=
  match s with
  | EmptyString => EmptyString
  | String c s' => String (lowerChar c) (toLowerCase s')
  end.

Definition lineFeed : ascii := ascii_of_nat 10.

(** Running a computation on every element, in order; the first rejection
    ends the loop. *)
Fixpoint mapM {E A B : Type} (f : A → M E B) (l : list A) : M E (list B) :=
  match l with
  | [] => ret []
  | x :: l' =>
      let! y := f x in
      let! ys := mapM f l' in
      ret (y :: ys)
  end.

Section Fetchers.
Variable numberToString : float → string.
Variable encodeURIComponent : string → string.
Variable localeCompare : string → string → Z.
Variable settings : Rip2EtfSettings.
(** The HTTP client: the outcome of [getJSON(url)] and of [getText(url)]. *)
Variable getJSON : string → Outcome Json.
Variable getText : string → Outcome string.

Definition ALPHA_BASE_URL : string := "https://www.alphavantage.co/query".

(** One entry of the time series turned into a bar. *)
Definition alphaBar (entry : string * Json) : M Event Bar :=
  let '(date, values) := entry in
  let! o := lift (prop values "1. open") in
  let! h := lift (prop values "2. high") in
  let! l := lift (prop values "3. low") in
  let! c := lift (prop values "4. close") in
  let! v := lift (prop values "6. volume") in
  ret {| bar_t := date;
         bar_o := Some (parseFloatOf numberToString o);
         bar_h := Some (parseFloatOf numberToString h);
         bar_l := Some (parseFloatOf numberToString l);
         bar_c := parseFloatOf numberToString c;
         bar_v := Some (parseFloatOf numberToString v) |}.

Definition alphaVantageDaily (symbol : string) : M Event (option PriceHistory) :=
  if negb (ENABLE_ALPHA_VANTAGE settings) then ret None
  else
    let key := ALPHAVANTAGE_API_KEY settings in
    if bool_decide (key = "") then ret None
    else
      let url :=
        ALPHA_BASE_URL ++ "?function=TIME_SERIES_DAILY_ADJUSTED&symbol="
        ++ encodeURIComponent symbol ++ "&outputsize=compact&apikey=" ++ key in
      perform (HttpGet url) (Resolved tt) ;;
      let json :=
        match getJSON url with
        | Resolved JsonNull | Rejected _ => JsonObject []
        | Resolved json => json
        end in
      let! information := lift (prop json "Information") in
      let! note := lift (prop json "Note") in
      let! errorMessage := lift (prop json "Error Message") in
      let message :=
        truthy json && (truthyOpt information || truthyOpt note || truthyOpt errorMessage) in
      if message then ret None
      else
        let! series := lift (prop json "Time Series (Daily)") in
        match series with
        | Some (JsonObject _ as series) | Some (JsonArray _ as series) =>
            let! bars := mapM alphaBar (entries series) in
            let bars := filter (fun bar => JsNumber.isFinite (bar_c bar) = true) bars in
            let bars := sortWith (fun a b => localeCompare (bar_t a) (bar_t b)) bars in
            ret (Some {| ph_symbol := symbol; ph_interval := I1d; ph_bars := bars;
                         ph_adjusted := Some true; ph_dataSources := ["alphaVantage"];
                         ph_sourceSymbol := None |})
        | _ => ret None
        end.

Definition SUFFIXES : list string :=
  [""; ".us"; ".de"; ".uk"; ".ln"; ".pa"; ".hk"; ".jp"].

Definition explicitVariants : gmap string (list string) :=
  list_to_map
    [ ("voo", ["voo.us"; "voo"]); ("vwce", ["vwce.de"; "vwce"]);
      ("spy", ["spy.us"; "spy"]); ("iwda", ["iwda"; "iwda.de"; "iwda.nl"]);
      ("qqq", ["qqq.us"; "qqq"]) ].

(** The lower-case names that every plain object inherits from
    [Object.prototype]: [explicit[base]] reads the constructor function, or
    the prototype object, under them. *)
Definition inheritedNames : list string := ["constructor"; "__proto__"].

(** [buildTickerVariants]: under an inherited name, [explicit[base]] is
    neither [null] nor [undefined] nor iterable, and [new Set(variants)]
    throws a [TypeError]. *)
Definition buildTickerVariants (symbol : string) : Outcome (list string) :=
  let base := toLowerCase symbol in
  if bool_decide (base ∈ inheritedNames)
  then Rejected (ThrownError "variants is not iterable")
  else
    let variants :=
      default (map (fun suffix => base ++ suffix) SUFFIXES) (explicitVariants !! base) in
    Resolved (JsSet.of_list variants).

(** [parseFloat(field)] for a column that may be missing. *)
Definition parseColumn (field : option string) : float :=
  match field with
  | Some text => JsConv.parseFloat text
  | None => nan
  end.

(** One line of the CSV turned into a bar. *)
Definition stooqBar (line : string) : Bar :=
  let fields := splitOn "," line in
  {| bar_t := default "" (fields !! 0);
     bar_o := Some (parseColumn (fields !! 1));
     bar_h := Some (parseColumn (fields !! 2));
     bar_l := Some (parseColumn (fields !! 3));
     bar_c := parseColumn (fields !! 4);
     bar_v := match fields !! 5 with
              | None | Some "" => None
              | Some volume => Some (JsConv.parseFloat volume)
              end |}.

(** The bars of a downloaded CSV, when it is usable. *)
Definition stooqBars (csv : string) : option (list Bar) :=
  if bool_decide (csv = "") || negb (includes "Date" csv) || includesCI "No data" csv
  then None
  else
    match splitOn lineFeed (JsConv.trim csv) with
    | [] => None
    | header :: lines =>
        if bool_decide (header = "") || negb (String.prefix "Date" header) then None
        else
          match filter (fun bar => JsNumber.isFinite (bar_c bar) = true) (map stooqBar lines) with
          | [] => None
          | bars => Some bars
          end
    end.

(** The loop of [stooqDaily] over the ticker variants. *)
Fixpoint stooqLoop (symbol : string) (candidates : list string)
    : M Event (option PriceHistory) :=
  match candidates with
  | [] => ret None
  | candidate :: rest =>
      let url := "https://stooq.com/q/d/l/?s=" ++ encodeURIComponent candidate ++ "&i=d" in
      perform (HttpGet url) (Resolved tt) ;;
      match getText url with
      | Rejected _ => stooqLoop symbol rest
      | Resolved csv =>
          match stooqBars csv with
          | None => stooqLoop symbol rest
          | Some bars =>
              ret (Some {| ph_symbol := symbol; ph_interval := I1d; ph_bars := bars;
                           ph_adjusted := Some false; ph_dataSources := ["stooq"];
                           ph_sourceSymbol := Some candidate |})
          end
      end
  end.

Definition stooqDaily (symbol : string) : M Event (option PriceHistory) :=
  let! candidates := lift (buildTickerVariants symbol) in
  stooqLoop symbol candidates.

End Fetchers.

End Providers.

(** ** [actions/snapshot.ts] *)

Module Snapshot.
Import Effects Types Providers.
Local Open Scope effect_scope.

Record Holding := {
  h_symbol : option string;
  h_name : string;
  h_weightPct : option float;
  h_shares : option float;
  h_marketValueUSD : option float
}.

Record EtfHoldings := {
  eh_symbol : string;
  eh_asOf : option string;
  eh_topHoldings : list Holding;
  eh_allHoldings : option (list Holding);
  eh_dataSources : list string
}.

Record SymbolDataset := {
  ds_overview : EtfOverview;
  ds_holdings : option EtfHoldings;
  ds_history : option PriceHistory
}.

(** A chart dataset: a label and one value, or [null], per date. *)
Record ChartDataset := { cd_label : string; cd_data : list (option float) }.

Record ChartResult := {
  cr_chartUrl : string;
  cr_mimeType : string;
  cr_buffer : string;
  cr_fileName : string
}.

Record Media := {
  media_id : string;
  media_url : string;
  media_data : string;
  media_filename : string;
  media_mimeType : string;
  media_title : string;
  media_description : string;
  media_source : string
}.

Record SnapshotPayload := {
  sp_primarySymbol : string;
  sp_compareSymbols : list string;
  sp_overview : EtfOverview;
  sp_holdings : option EtfHoldings;
  sp_chartUrl : option string;
  sp_chartAttached : bool;
  sp_priceSources : list string;
  sp_summary : string
}.

(** The [data] of a result: [{ actionName, reason }], [{ actionName, error }]
    or the snapshot itself. *)
Inductive ResultData :=
  | DataReason (reason : string)
  | DataError (error : string)
  | DataSnapshot (payload : SnapshotPayload).

Record ActionResult := {
  ar_text : option string;
  ar_success : bool;
  ar_data : ResultData;
  ar_attachments : option (list Media)
}.

(** The parts of a message that the action reads. *)
Record Message := {
  msg_id : option string;
  msg_entityId : string;
  msg_roomId : option string;
  msg_content : option Tickers.Content;
  msg_role : option string;
  msg_authorId : option string;
  msg_source : option string;
  msg_tags : option (list string)
}.

Definition truthyValue (v : JsValue) : bool :=
  match v with
  | JUndefined | JNull => false
  | JString s => negb (bool_decide (s = ""))
  | JNumber x => JsNumber.truthy x
  end.

Definition isUndefined (v : JsValue) : bool :=
  match v with JUndefined => true | _ => false end.

(** [ToNumber] of a property value. *)
Definition toNumber (v : JsValue) : float :=
  match v with
  | JUndefined => nan
  | JNull => PrimFloat.zero
  | JString s => JsConv.Number s
  | JNumber x => x
  end.

Definition hasOverviewData (overview : EtfOverview) : bool :=
  let field := js_get (ov_fields overview) in
  truthyValue (field K_issuer) || truthyValue (field K_category)
  || truthyValue (field K_benchmark)
  || negb (isUndefined (field K_expenseRatio))
  || negb (isUndefined (field K_aumUSD))
  || negb (isUndefined (field K_navUSD))
  || truthyValue (field K_name).

Definition hasHoldingsData (holdings : option EtfHoldings) : bool :=
  match holdings with
  | Some h => (0 <? length (eh_topHoldings h))%nat
  | None => false
  end.

Definition hasHistoryData (history : option PriceHistory) : bool :=
  match history with
  | Some h => (0 <? length (ph_bars h))%nat
  | None => false
  end.

(** [array.slice(-n)] *)
Definition lastN {A : Type} (n : nat) (l : list A) : list A :=
  drop (length l - n) l.

Definition MAX_HISTORY_POINTS : nat := 180.
Definition MAX_COMPARISONS : nat := 4.

Definition newline : string := String lineFeed EmptyString.

Section Handler.
Variable numberToString : float → string.
Variable encodeURIComponent : string → string.
Variable localeCompare : string → string → Z.
Variable settings : Rip2EtfSettings.
Variable getJSON : string → Outcome Json.Json.
Variable getText : string → Outcome string.
(** The fetchers of [providers/fmp.ts] and [providers/finnhub.ts], by what
    a call performs and answers. *)
Variable fmpEtfProfile : string → M Event (option Fragment).
Variable finnhubEtfProfile : string → M Event (option Fragment).
Variable fmpEtfHoldings : string → M Event (option EtfHoldings).
(** [data/manual.ts] *)
Variable manualOverview : string → option Fragment.
Variable manualHoldings : string → option EtfHoldings.
(** [createLineChartImage], by its outcome. *)
Variable createLineChartImage :
  list string → list ChartDataset → string → Outcome ChartResult.
(** [Date.now()], and the debug flag that dumps the chart to a file (the
    other debug flag only logs). *)
Variable now : Z.
Variable CHART_DUMP_DEBUG_ENABLED : bool.
(** The agent id of the runtime. *)
Variable agentId : string.
(** The rest of the composed state, and [ensureCorrelationId] of the host. *)
Variable StateData : Type.
Variable emptyStateData : StateData.

(** [State]: [values.__snapshotCache] and everything else. *)
Record State := {
  st_cache : option (gmap string ActionResult);
  st_data : StateData
}.

Variable ensureCorrelationId : State → Message → string.

Definition TypeError (what : string) : Thrown := ThrownError what.

(** [`${value ?? "n/d"}`] *)
Definition orPlaceholder (v : JsValue) : string :=
  match v with
  | JUndefined | JNull => "n/d"
  | JString s => s
  | JNumber x => numberToString x
  end.

Definition isNaNValue (v : JsValue) : bool :=
  match v with JNumber x => is_nan x | _ => false end.

(** [value.toFixed(f)]: only a number has the method. *)
Definition toFixedOf (v : JsValue) (f : nat) : Outcome string :=
  match v with
  | JNumber x => Resolved (JsConv.toFixed numberToString x f)
  | _ => Rejected (TypeError "value.toFixed is not a function")
  end.

Definition formatCurrency (value : JsValue) : Outcome string :=
  if isUndefined value || isNaNValue value then Resolved "n/d"
  else if (1000000000 <=? toNumber value)%float
  then Resolved (JsConv.toFixed numberToString (toNumber value / 1000000000)%float 1 ++ "B$")
  else if (1000000 <=? toNumber value)%float
  then Resolved (JsConv.toFixed numberToString (toNumber value / 1000000)%float 1 ++ "M$")
  else
    match toFixedOf value 0 with
    | Resolved text => Resolved (text ++ "$")
    | Rejected e => Rejected e
    end.

Definition formatPercent (value : JsValue) : Outcome string :=
  if isUndefined value || isNaNValue value then Resolved "n/d"
  else
    match toFixedOf value 2 with
    | Resolved text => Resolved (text ++ "%")
    | Rejected e => Rejected e
    end.

Definition pickTop (holdings : list Holding) : string :=
  String.concat newline
    (imap (fun idx h =>
             JsConv.digitsOf (Z.of_nat (idx + 1)) ++ ". " ++ h_name h ++
             match h_weightPct h with
             | Some w =>
                 if JsNumber.truthy w
                 then " (" ++ JsConv.toFixed numberToString w 2 ++ "%)"
                 else ""
             | None => ""
             end)
          (take 5 (filter (fun h => h_name h ≠ "") holdings))).

Definition isAgentMessage (message : Message) : bool :=
  (negb (bool_decide (agentId = "")) && bool_decide (msg_entityId message = agentId))
  || match msg_role message with
     | Some role => bool_decide (toLowerCase role = "assistant")
     | None => false
     end
  || match msg_authorId message with
     | Some id => bool_decide (id = agentId)
     | None => false
     end
  || match msg_source message with
     | Some "" | None => false
     | Some sourceTag => String.prefix "rip2etf.snapshot" sourceTag
     end
  || match msg_tags message with
     | Some tags => existsb (includes "agent") tags
     | None => false
     end.

(** [Promise.all] of two calls: both run; the first rejection is the
    outcome. *)
Definition both {A B : Type} (a : M Event A) (b : M Event B) : M Event (A * B) :=
  match a, b with
  | (ta, Resolved x), (tb, Resolved y) => ((ta ++ tb)%list, Resolved (x, y))
  | (ta, Rejected e), (tb, _) => ((ta ++ tb)%list, Rejected e)
  | (ta, Resolved _), (tb, Rejected e) => ((ta ++ tb)%list, Rejected e)
  end.

Definition fetchSymbolDataset (symbol : string) : M Event SymbolDataset :=
  let! overviews := both (fmpEtfProfile symbol) (finnhubEtfProfile symbol) in
  let '(overviewPrimary, overviewExtra) := overviews in
  let overview :=
    Normalize.reconcileOverview symbol [overviewPrimary; overviewExtra; manualOverview symbol] in
  let! fetched := fmpEtfHoldings symbol in
  let holdings := match fetched with Some h => Some h | None => manualHoldings symbol end in
  let! first := alphaVantageDaily numberToString encodeURIComponent localeCompare
                  settings getJSON symbol in
  let! history :=
    if hasHistoryData first then ret first
    else stooqDaily encodeURIComponent getText symbol in
  ret {| ds_overview := overview; ds_holdings := holdings; ds_history := history |}.

(** The loop that fills [symbolDataMap]: a candidate whose fetch fails is
    left out. *)
Fixpoint fetchAll (candidates : list string) (symbolDataMap : gmap string SymbolDataset)
    : M Event (gmap string SymbolDataset) :=
  match candidates with
  | [] => ret symbolDataMap
  | candidate :: rest =>
      let! symbolDataMap :=
        tryCatch
          (let! dataset := fetchSymbolDataset candidate in
           ret (<[candidate := dataset]> symbolDataMap))
          (fun _ => ret symbolDataMap) in
      fetchAll rest symbolDataMap
  end.

Definition hasAnyData (dataset : SymbolDataset) : bool :=
  hasOverviewData (ds_overview dataset)
  || hasHoldingsData (ds_holdings dataset)
  || hasHistoryData (ds_history dataset).

(** [corrId.replace(/[^a-zA-Z0-9_-]/g, "_")] *)
Fixpoint safeCorrId (s : string) : string :=
  match s with
  | EmptyString => EmptyString
  | String c s' =>
      String (if Tickers.isWord c || (Tickers.code c =? 45)%nat then c else "_"%char)
             (safeCorrId s')
  end.

(** The last point of a series whose value is finite. *)
Definition lastValid (points : list Point) : option Point :=
  head (filter (fun p => JsNumber.isFinite (pt_v p) = true) (rev points)).

Definition missingSymbolText : string :=
  "Non ho trovato ticker validi nel messaggio. Indica almeno un simbolo ETF (es. VOO) e riprovo.".

Definition noDataText : string :=
  "Non sono riuscito a trovare dati affidabili per i simboli indicati. Controlla i ticker (es. VOO, VWCE) e riprova.".

(** The seven overview lines of the reply. *)
Definition overviewSections (primarySymbol : string) (overview : EtfOverview)
    : M Event (list string) :=
  let field := js_get (ov_fields overview) in
  let! ter := lift (formatPercent (field K_expenseRatio)) in
  let! aum := lift (formatCurrency (field K_aumUSD)) in
  let! nav := lift (formatCurrency (field K_navUSD)) in
  ret [ "**" ++ primarySymbol ++ " · snapshot dati**";
        "- Issuer: " ++ orPlaceholder (field K_issuer);
        "- Categoria: " ++ orPlaceholder (field K_category);
        "- Benchmark: " ++ orPlaceholder (field K_benchmark);
        "- TER: " ++ ter;
        "- AUM: " ++ aum;
        "- NAV: " ++ nav ++ " (ultimo close " ++ orPlaceholder (field K_lastCloseDate) ++ ")" ].

(** The part of [buildSnapshot] that follows the choice of the primary
    symbol: alignment, chart, and the text of the reply. *)
Definition renderSnapshot (corrId : string) (candidates : list string)
    (symbolDataMap : gmap string SymbolDataset)
    (primarySymbol : string) (primaryData : SymbolDataset) : M Event ActionResult :=
  let compareSymbols :=
    take MAX_COMPARISONS
      (filter (fun symbol =>
                 symbol ≠ primarySymbol ∧
                 hasHistoryData (symbolDataMap !! symbol ≫= ds_history) = true)
              candidates) in
  let peers := primarySymbol :: compareSymbols in
  let histories :=
    omap (fun symbol =>
            match symbolDataMap !! symbol ≫= ds_history with
            | Some history =>
                if hasHistoryData (Some history) then Some history else None
            | None => None
            end) peers in
  let aligned :=
    match histories with
    | [] => {| dates := []; table := []; sources := [] |}
    | _ => Normalize.alignAndRebase histories
    end in
  let limitedDates := lastN MAX_HISTORY_POINTS (dates aligned) in
  let limitedTable :=
    map (fun series =>
           {| cs_symbol := cs_symbol series;
              cs_points := lastN MAX_HISTORY_POINTS (cs_points series) |})
        (table aligned) in
  let datasets :=
    map (fun series =>
           {| cd_label := cs_symbol series;
              cd_data :=
                map (fun point =>
                       if JsNumber.isFinite (pt_v point)
                       then Some (JsConv.Number
                                    (JsConv.toFixed numberToString (pt_v point) 2))
                       else None)
                    (cs_points series) |})
        limitedTable in
  let hasChartDataset :=
    (1 <? length limitedDates)%nat
    && existsb (fun series => existsb (fun value => bool_decide (is_Some value))
                                (cd_data series)) datasets in
  let dayCount := JsConv.digitsOf (Z.of_nat (length limitedDates)) in
  let chartTitle := "Andamento ultimi " ++ dayCount ++ " giorni" in
  let! chartResult :=
    if hasChartDataset
    then
      let! chart := perform (RenderChart chartTitle)
                      (createLineChartImage limitedDates datasets chartTitle) in
      ret (Some chart)
    else ret None in
  let chartAttachment :=
    match chartResult with
    | Some chart =>
        Some {| media_id := "rip2etf-chart-" ++ primarySymbol ++ "-"
                            ++ JsConv.digitsOf now;
                media_url := if String.prefix "data:" (cr_chartUrl chart)
                             then cr_fileName chart else cr_chartUrl chart;
                media_data := cr_buffer chart;
                media_filename := cr_fileName chart;
                media_mimeType := cr_mimeType chart;
                media_title := chartTitle;
                media_description :=
                  "Performance rebased 100 (" ++ dayCount ++ " giorni)";
                media_source := "rip2etf.snapshot" |}
    | None => None
    end in
  (match chartAttachment with
   | Some _ =>
       if CHART_DUMP_DEBUG_ENABLED
       then perform (WriteFile ("/tmp/rip2etf-" ++ safeCorrId corrId ++ ".png"))
              (Resolved tt)
       else ret tt
   | None => ret tt
   end) ;;
  let latestRow :=
    map (fun series =>
           cs_symbol series ++ ": " ++
           match lastValid (cs_points series) with
           | Some point => JsConv.toFixed numberToString (pt_v point) 1
           | None => "n/d"
           end)
        limitedTable in
  let! overviewLines := overviewSections primarySymbol (ds_overview primaryData) in
  let holdingsLines :=
    match ds_holdings primaryData with
    | Some holdings =>
        if hasHoldingsData (Some holdings)
        then [""; "Top holdings:" ++ newline ++ pickTop (eh_topHoldings holdings)]
        else []
    | None => []
    end in
  let performanceLines :=
    match limitedTable with
    | [] => []
    | _ =>
        [ ""; "Performance rebased 100 (" ++ dayCount ++ " giorni):";
          String.concat " | " latestRow;
          match sources aligned with
          | [] => ""
          | _ => "Fonti prezzo: " ++ String.concat ", " (sources aligned)
          end ]
    end in
  let compareLines :=
    match compareSymbols with
    | [] => []
    | _ => [""; "Confronto con: " ++ String.concat ", " compareSymbols]
    end in
  let chartLines :=
    match chartAttachment with
    | Some _ => [""; "Grafico Chart.js allegato in coda."]
    | None => []
    end in
  let responseSections :=
    (overviewLines ++ holdingsLines ++ performanceLines
     ++ compareLines ++ chartLines)%list in
  let responseText :=
    String.concat newline (filter (fun section => section ≠ "") responseSections) in
  let snapshotAttachments :=
    match chartAttachment with Some media => [media] | None => [] end in
  ret {| ar_text := Some responseText;
         ar_success := true;
         ar_data :=
           DataSnapshot
             {| sp_primarySymbol := primarySymbol;
                sp_compareSymbols := compareSymbols;
                sp_overview := ds_overview primaryData;
                sp_holdings := ds_holdings primaryData;
                sp_chartUrl := cr_chartUrl <$> chartResult;
                sp_chartAttached := bool_decide (is_Some chartAttachment);
                sp_priceSources := sources aligned;
                sp_summary := responseText |};
         ar_attachments := Some snapshotAttachments |}.

Definition missingSymbolResult : ActionResult :=
  {| ar_text := Some missingSymbolText; ar_success := false;
     ar_data := DataReason "missing_symbol"; ar_attachments := None |}.

Definition noDataResult : ActionResult :=
  {| ar_text := Some noDataText; ar_success := false;
     ar_data := DataError "no_data_for_symbols"; ar_attachments := None |}.

(** [collectSymbols], then trimming, upper-casing and deduplication. *)
Definition candidatesOf (message : Message) : list string :=
  let collected := Tickers.collectSymbols (msg_content message) None (Some 6%Z) in
  JsSet.of_list
    (filter (fun s => s ≠ "")
       (map (fun symbol => Tickers.toUpperCase (JsConv.trim symbol)) collected)).

Definition buildSnapshot (message : Message) (corrId : string) : M Event ActionResult :=
  let candidates := candidatesOf message in
  match candidates with
  | [] => ret missingSymbolResult
  | _ =>
      let! symbolDataMap := fetchAll candidates ∅ in
      match list_find (fun c => from_option hasAnyData false (symbolDataMap !! c) = true)
              candidates with
      | None => ret noDataResult
      | Some (_, primarySymbol) =>
          match symbolDataMap !! primarySymbol with
          | None => throw (TypeError "Cannot read properties of undefined")
          | Some primaryData =>
              renderSnapshot corrId candidates symbolDataMap primarySymbol primaryData
          end
      end
  end.

Definition ignoredResult : ActionResult :=
  {| ar_text := None; ar_success := false;
     ar_data := DataError "IGNORED_SELF_MESSAGE"; ar_attachments := None |}.

Definition failureText (reason : string) : string :=
  "Impossibile completare la snapshot per ora (" ++ reason ++ "). Riprova tra poco.".

Definition failureResult (reason : string) : ActionResult :=
  {| ar_text := Some (failureText reason); ar_success := false;
     ar_data := DataError reason; ar_attachments := None |}.

(** [`${message.roomId ?? "room"}:${corrId}`] *)
Definition cacheKeyOf (message : Message) (corrId : string) : string :=
  default "room" (msg_roomId message) ++ ":" ++ corrId.

(** [snapshotAction.handler]: what it performs, its outcome, and the state
    it leaves. [callback] gives, when a callback is passed, the outcome of
    awaiting it on a reply text. *)
Definition handler (message : Message) (state : option State)
    (callback : option (string → Outcome unit)) : M Event ActionResult * State :=
  let state := default {| st_cache := None; st_data := emptyStateData |} state in
  if isAgentMessage message then (ret ignoredResult, state)
  else
    let corrId := ensureCorrelationId state message in
    let cacheKey := cacheKeyOf message corrId in
    let cache := default ∅ (st_cache state) in
    match cache !! cacheKey with
    | Some cached => (ret cached, state)
    | None =>
        match buildSnapshot message corrId with
        | (trace, Resolved result) =>
            ((trace, Resolved result),
             {| st_cache := Some (<[cacheKey := result]> cache); st_data := st_data state |})
        | (trace, Rejected error) =>
            let reason :=
              messageOr error
                (fun _ => "Errore inatteso durante la generazione snapshot") in
            (bind (trace, Resolved tt)
               (fun _ =>
                  (match callback with
                   | Some call =>
                       perform (Reply (failureText reason)) (call (failureText reason))
                   | None => ret tt
                   end) ;;
                  ret (failureResult reason)),
             state)
        end
    end.

End Handler.

End Snapshot.

(** ** Properties of the effect combinators *)

Module EffectFacts.
Import Effects.

Lemma bind_Resolved {E A B : Type} (m : M E A) (k : A → M E B) t r :
  bind m k = (t, Resolved r) →
  ∃ t1 a t2, m = (t1, Resolved a) ∧ k a = (t2, Resolved r) ∧ t = (t1 ++ t2)%list.
Proof.
  destruct m as [t1 [a|e]]; simpl; [|done].
  destruct (k a) as [t2 r'] eqn:Hk. intros [= <- ->]. by exists t1, a, t2.
Qed.

Lemma bind_lift_Resolved {E A B : Type} (a : A) (k : A → M E B) :
  bind (lift (Resolved a)) k = k a.
Proof. unfold bind, lift. by destruct (k a). Qed.

Lemma bind_ret {E A B : Type} (a : A) (k : A → M E B) : bind (ret a) k = k a.
Proof. unfold bind, ret. by destruct (k a). Qed.

End EffectFacts.

(** ** Properties of the provider fetchers *)

Module ProviderFacts.
Import Effects EffectFacts Types Json Providers.
Local Open Scope effect_scope.

Section SortFacts.
Context {A : Type} (compare : A → A → Z).

Lemma insertSorted_Permutation (x : A) (l : list A) :
  insertSorted compare x l ≡ₚ x :: l.
Proof.
  induction l as [|y l IH]; simpl; [done|].
  destruct (compare x y <=? 0)%Z; [done|].
  rewrite IH. apply Permutation_swap.
Qed.

(** Sorting only reorders. *)
Lemma sortWith_Permutation (l : list A) : sortWith compare l ≡ₚ l.
Proof.
  induction l as [|x l IH]; simpl; [done|].
  by rewrite insertSorted_Permutation, IH.
Qed.

(** The comparator never says that each of two elements exceeds the other. *)
Hypothesis compare_consistent :
  ∀ a b, (0 < compare a b)%Z → (compare b a <= 0)%Z.

Lemma insertSorted_Sorted (x : A) (l : list A) :
  Sorted (fun a b => (compare a b <= 0)%Z) l →
  Sorted (fun a b => (compare a b <= 0)%Z) (insertSorted compare x l).
Proof.
  induction 1 as [|y l Hl IH Hhd]; simpl.
  - repeat constructor.
  - destruct (compare x y <=? 0)%Z eqn:Hxy.
    + apply Z.leb_le in Hxy. repeat constructor; done.
    + apply Z.leb_gt in Hxy. constructor; [done|].
      destruct l as [|z l]; simpl.
      * constructor. by apply compare_consistent.
      * destruct (compare x z <=? 0)%Z; constructor.
        -- by apply compare_consistent.
        -- by inversion Hhd.
Qed.

Lemma sortWith_Sorted (l : list A) :
  Sorted (fun a b => (compare a b <= 0)%Z) (sortWith compare l).
Proof.
  induction l as [|x l IH]; simpl; [constructor|]. by apply insertSorted_Sorted.
Qed.

End SortFacts.

Section FetcherFacts.
Variable numberToString : float → string.
Variable encodeURIComponent : string → string.
Variable localeCompare : string → string → Z.
Variable settings : Rip2EtfSettings.
Variable getJSON : string → Outcome Json.
Variable getText : string → Outcome string.

Local Abbreviation alphaVantage :=
  (alphaVantageDaily numberToString encodeURIComponent localeCompare settings getJSON).
Local Abbreviation stooq := (stooqDaily encodeURIComponent getText).

(** A history answered by [alphaVantageDaily] holds the finite-close bars
    of the series, sorted. *)
Lemma alphaVantageDaily_bars (symbol : string) t (ph : PriceHistory) :
  alphaVantage symbol = (t, Resolved (Some ph)) →
  ∃ bars, ph_bars ph =
    sortWith (fun a b => localeCompare (bar_t a) (bar_t b))
      (filter (fun bar => JsNumber.isFinite (bar_c bar) = true) bars)
    ∧ ph_symbol ph = symbol ∧ ph_dataSources ph = ["alphaVantage"].
Proof.
  unfold alphaVantageDaily.
  destruct (negb (ENABLE_ALPHA_VANTAGE settings)); [done|].
  case_bool_decide as Hkey; [done|]. intros H.
  apply bind_Resolved in H as (t1 & [] & t2 & _ & H & _).
  apply bind_Resolved in H as (? & information & ? & _ & H & _).
  apply bind_Resolved in H as (? & note & ? & _ & H & _).
  apply bind_Resolved in H as (? & errorMessage & ? & _ & H & _).
  destruct (truthy _ && _); [done|].
  apply bind_Resolved in H as (? & series & ? & _ & H & _).
  destruct series as [[| | | | |]|]; try done.
  - apply bind_Resolved in H as (? & bars & ? & _ & H & _).
    injection H as _ <-. by exists bars.
  - apply bind_Resolved in H as (? & bars & ? & _ & H & _).
    injection H as _ <-. by exists bars.
Qed.

Lemma stooqBars_Some (csv : string) (bars : list Bar) :
  stooqBars csv = Some bars →
  bars ≠ [] ∧ Forall (fun bar => JsNumber.isFinite (bar_c bar) = true) bars ∧
  includes "Date" csv = true ∧ includesCI "No data" csv = false.
Proof.
  unfold stooqBars.
  destruct (bool_decide (csv = "")); [done|].
  destruct (includes "Date" csv); [|done].
  destruct (includesCI "No data" csv); [done|]. simpl.
  destruct (splitOn lineFeed (JsConv.trim csv)) as [|header lines]; [done|].
  destruct (bool_decide (header = "") || _); [done|].
  destruct (filter _ (map stooqBar lines)) as [|bar rest] eqn:Hf; [done|].
  intros [= <-]. split_and!; [done| |done|done].
  rewrite <- Hf. apply Forall_forall. intros b Hb.
  by apply list_elem_of_filter in Hb as [Hb _].
Qed.

Lemma stooqLoop_Some (symbol : string) (candidates : list string) t (ph : PriceHistory) :
  stooqLoop encodeURIComponent getText symbol candidates = (t, Resolved (Some ph)) →
  ∃ candidate csv,
    candidate ∈ candidates ∧
    getText ("https://stooq.com/q/d/l/?s=" ++ encodeURIComponent candidate ++ "&i=d")
      = Resolved csv ∧
    stooqBars csv = Some (ph_bars ph) ∧
    ph_symbol ph = symbol ∧ ph_sourceSymbol ph = Some candidate ∧
    ph_dataSources ph = ["stooq"].
Proof.
  revert t. induction candidates as [|candidate rest IH]; intros t H; [done|].
  cbn [stooqLoop] in H.
  apply bind_Resolved in H as (t1 & [] & t2 & _ & H & _).
  destruct (getText _) as [csv|e] eqn:Hget.
  - destruct (stooqBars csv) as [bars|] eqn:Hbars.
    + injection H as _ <-. exists candidate, csv.
      split_and!; [apply elem_of_cons; by left|done..].
    + destruct (IH _ H) as (c & csv' & Hc & Hrest). exists c, csv'.
      split; [apply elem_of_cons; by right|done].
  - destruct (IH _ H) as (c & csv' & Hc & Hrest). exists c, csv'.
    split; [apply elem_of_cons; by right|done].
Qed.

(** The loop of [stooqDaily] never rejects. *)
Lemma stooqLoop_resolves (symbol : string) (candidates : list string) :
  ∃ t r, stooqLoop encodeURIComponent getText symbol candidates = (t, Resolved r).
Proof.
  induction candidates as [|candidate rest (t & r & IH)]; [by eexists _, _|].
  cbn [stooqLoop]. unfold bind, perform.
  destruct (getText _) as [csv|e].
  - destruct (stooqBars csv); [by eexists _, _|]. rewrite IH. by eexists _, _.
  - rewrite IH. by eexists _, _.
Qed.

(** The loop answers [null] when every download fails or is unusable. *)
Lemma stooqLoop_unusable (symbol : string) (candidates : list string) :
  (∀ url, match getText url with
          | Resolved csv => stooqBars csv = None
          | Rejected _ => True
          end) →
  snd (stooqLoop encodeURIComponent getText symbol candidates) = Resolved None.
Proof.
  intros Hbad. induction candidates as [|candidate rest IH]; [done|].
  cbn [stooqLoop]. unfold bind, perform.
  specialize (Hbad ("https://stooq.com/q/d/l/?s=" ++ encodeURIComponent candidate ++ "&i=d")).
  destruct (getText _) as [csv|e].
  - rewrite Hbad. destruct (stooqLoop _ _ _ rest) as [t r]. simpl in *. done.
  - destruct (stooqLoop _ _ _ rest) as [t r]. simpl in *. done.
Qed.

(** Under a name inherited from [Object.prototype], [stooqDaily] rejects
    before any request. *)
Lemma stooqDaily_inherited_name (symbol : string) :
  toLowerCase symbol ∈ inheritedNames →
  ∃ e, stooq symbol = ([], Rejected e).
Proof.
  intros Hin. unfold stooqDaily, buildTickerVariants.
  rewrite bool_decide_eq_true_2 by done. by eexists.
Qed.

Lemma stooqDaily_loop (symbol : string) :
  toLowerCase symbol ∉ inheritedNames →
  ∃ candidates,
    buildTickerVariants symbol = Resolved candidates ∧
    stooq symbol = stooqLoop encodeURIComponent getText symbol candidates.
Proof.
  intros Hin. unfold stooqDaily, buildTickerVariants.
  rewrite bool_decide_eq_false_2 by done.
  eexists. split; [reflexivity|]. apply bind_lift_Resolved.
Qed.

(** Under any other name, [stooqDaily] never rejects. *)
Lemma stooqDaily_resolves (symbol : string) :
  toLowerCase symbol ∉ inheritedNames →
  ∃ t r, stooq symbol = (t, Resolved r).
Proof.
  intros Hin. destruct (stooqDaily_loop symbol Hin) as (candidates & _ & ->).
  apply stooqLoop_resolves.
Qed.

(** [stooqDaily] answers [null] when every download fails or is unusable. *)
Lemma stooqDaily_unusable (symbol : string) :
  toLowerCase symbol ∉ inheritedNames →
  (∀ url, match getText url with
          | Resolved csv => stooqBars csv = None
          | Rejected _ => True
          end) →
  snd (stooq symbol) = Resolved None.
Proof.
  intros Hin Hbad. destruct (stooqDaily_loop symbol Hin) as (candidates & _ & ->).
  by apply stooqLoop_unusable.
Qed.

(** *** The answers of [alphaVantageDaily] *)

(** The URL that [alphaVantageDaily] requests. *)
Definition alphaUrl (symbol : string) : string :=
  ALPHA_BASE_URL ++ "?function=TIME_SERIES_DAILY_ADJUSTED&symbol="
  ++ encodeURIComponent symbol ++ "&outputsize=compact&apikey="
  ++ ALPHAVANTAGE_API_KEY settings.

(** [values[key]] on a value that is not [null]. *)
Definition field (values : Json) (key : string) : option Json :=
  match values with
  | JsonObject fields => assoc key fields
  | _ => None
  end.

(** The bar made of a row of the series that is not [null]. *)
Definition rowBar (entry : string * Json) : Bar :=
  {| bar_t := entry.1;
     bar_o := Some (parseFloatOf numberToString (field entry.2 "1. open"));
     bar_h := Some (parseFloatOf numberToString (field entry.2 "2. high"));
     bar_l := Some (parseFloatOf numberToString (field entry.2 "3. low"));
     bar_c := parseFloatOf numberToString (field entry.2 "4. close");
     bar_v := Some (parseFloatOf numberToString (field entry.2 "6. volume")) |}.

(** An answer that carries a throttle note or an error message. *)
Definition hasMessage (fields : list (string * Json)) : bool :=
  truthyOpt (assoc "Information" fields) || truthyOpt (assoc "Note" fields)
  || truthyOpt (assoc "Error Message" fields).

(** The rows of the time series of an answer, when it has one: the entries
    of the object, or of the array, under ["Time Series (Daily)"]. *)
Definition seriesRows (fields : list (string * Json)) : option (list (string * Json)) :=
  match assoc "Time Series (Daily)" fields with
  | Some (JsonObject rows) => Some rows
  | Some (JsonArray items) => Some (entries (JsonArray items))
  | _ => None
  end.

(** The outcome of the request leaves no time series to read: the request
    failed, the answer is no object, it carries a message, or it has no
    object under ["Time Series (Daily)"]. *)
Definition NoSeries (answer : Outcome Json) : Prop :=
  (∃ e, answer = Rejected e) ∨
  (∃ json, answer = Resolved json ∧ ∀ fields, json ≠ JsonObject fields) ∨
  (∃ fields, answer = Resolved (JsonObject fields) ∧
             (hasMessage fields = true ∨ seriesRows fields = None)).

Lemma prop_not_null (values : Json) (key : string) :
  values ≠ JsonNull → prop values key = Resolved (field values key).
Proof. by destruct values. Qed.

Lemma alphaBar_row (entry : string * Json) :
  entry.2 ≠ JsonNull → alphaBar numberToString entry = ([], Resolved (rowBar entry)).
Proof.
  destruct entry as [date values]. intros Hv. cbn [snd] in Hv.
  unfold alphaBar. rewrite !(prop_not_null values _ Hv).
  by rewrite !bind_lift_Resolved.
Qed.

Lemma alphaBar_null (date : string) :
  ∃ e, alphaBar numberToString (date, JsonNull) = ([], Rejected e).
Proof. by eexists. Qed.

Lemma mapM_alphaBar_rows (rows : list (string * Json)) :
  Forall (fun row => row.2 ≠ JsonNull) rows →
  mapM (alphaBar numberToString) rows = ([], Resolved (rowBar <$> rows)).
Proof.
  induction 1 as [|row rows Hrow _ IH]; [done|].
  cbn [mapM]. by rewrite (alphaBar_row row Hrow), IH.
Qed.

Lemma mapM_alphaBar_null (rows : list (string * Json)) :
  Exists (fun row => row.2 = JsonNull) rows →
  ∃ e, mapM (alphaBar numberToString) rows = ([], Rejected e).
Proof.
  induction rows as [|[date values] rows IH]; intros Hex; [by apply Exists_nil in Hex|].
  cbn [mapM].
  assert (Hcase : values = JsonNull ∨ values ≠ JsonNull) by (destruct values; auto).
  destruct Hcase as [->|Hv].
  - by eexists.
  - rewrite (alphaBar_row (date, values)) by done.
    apply Exists_cons in Hex as [Hex|Hex]; [done|].
    destruct (IH Hex) as [e ->]. by eexists.
Qed.

(** Without the provider enabled, or without a key, nothing is requested. *)
Lemma alphaVantageDaily_disabled (symbol : string) :
  ENABLE_ALPHA_VANTAGE settings = false ∨ ALPHAVANTAGE_API_KEY settings = "" →
  alphaVantage symbol = ([], Resolved None).
Proof.
  intros [Hoff|Hkey]; unfold alphaVantageDaily.
  - by rewrite Hoff.
  - destruct (negb _); [done|]. by rewrite bool_decide_eq_true_2.
Qed.

Section Enabled.
Hypothesis enabled : ENABLE_ALPHA_VANTAGE settings = true.
Hypothesis keyed : ALPHAVANTAGE_API_KEY settings ≠ "".

(** The function after the request, on the value bound to [json]. *)
Lemma alphaVantageDaily_object (symbol : string) (fields : list (string * Json)) :
  match getJSON (alphaUrl symbol) with
  | Resolved JsonNull | Rejected _ => JsonObject []
  | Resolved json => json
  end = JsonObject fields →
  alphaVantage symbol =
    if hasMessage fields then ([HttpGet (alphaUrl symbol)], Resolved None)
    else match seriesRows fields with
         | None => ([HttpGet (alphaUrl symbol)], Resolved None)
         | Some rows =>
             bind (perform (HttpGet (alphaUrl symbol)) (Resolved tt))
               (fun _ =>
                  bind (mapM (alphaBar numberToString) rows)
                    (fun bars =>
                       ret (Some
                         {| ph_symbol := symbol; ph_interval := I1d;
                            ph_bars :=
                              sortWith (fun a b => localeCompare (bar_t a) (bar_t b))
                                (filter (fun bar => JsNumber.isFinite (bar_c bar) = true) bars);
                            ph_adjusted := Some true;
                            ph_dataSources := ["alphaVantage"];
                            ph_sourceSymbol := None |})))
         end.
Proof.
  intros Hjson. unfold alphaVantageDaily. rewrite enabled. cbn [negb].
  rewrite bool_decide_eq_false_2 by done. fold (alphaUrl symbol). rewrite Hjson.
  cbn [prop]. unfold bind at 1, perform at 1. rewrite !bind_lift_Resolved.
  cbn [truthy andb]. fold (hasMessage fields).
  destruct (hasMessage fields); [done|].
  rewrite ?bind_lift_Resolved. unfold seriesRows.
  destruct (assoc "Time Series (Daily)" fields) as [[| | | |items|rows]|]; try done.
Qed.

(** On an answer that is neither [null] nor an object, every property read
    is [undefined]. *)
Lemma alphaVantageDaily_scalar (symbol : string) (json : Json) :
  getJSON (alphaUrl symbol) = Resolved json →
  json ≠ JsonNull → (∀ fields, json ≠ JsonObject fields) →
  alphaVantage symbol = ([HttpGet (alphaUrl symbol)], Resolved None).
Proof.
  intros Hjson Hnull Hobject. unfold alphaVantageDaily. rewrite enabled. cbn [negb].
  rewrite bool_decide_eq_false_2 by done. fold (alphaUrl symbol). rewrite Hjson.
  destruct json as [|b|x|s|items|fields]; [done| | | | |by destruct (Hobject fields)];
    cbn [prop]; unfold bind at 1, perform at 1; rewrite !bind_lift_Resolved;
    cbn [truthyOpt from_option]; by rewrite !andb_false_r.
Qed.

(** [alphaVantageDaily] answers [null] when the request leaves no time
    series to read. *)
Lemma alphaVantageDaily_no_series (symbol : string) :
  NoSeries (getJSON (alphaUrl symbol)) →
  alphaVantage symbol = ([HttpGet (alphaUrl symbol)], Resolved None).
Proof.
  intros [[e He]|[(json & Hjson & Hshape)|(fields & Hjson & Hfields)]].
  - rewrite (alphaVantageDaily_object symbol []) by (by rewrite He). reflexivity.
  - destruct json as [|b|x|s|items|fields].
    + rewrite (alphaVantageDaily_object symbol []) by (by rewrite Hjson). reflexivity.
    + by apply (alphaVantageDaily_scalar symbol (JsonBool b)).
    + by apply (alphaVantageDaily_scalar symbol (JsonNumber x)).
    + by apply (alphaVantageDaily_scalar symbol (JsonString s)).
    + by apply (alphaVantageDaily_scalar symbol (JsonArray items)).
    + by destruct (Hshape fields).
  - rewrite (alphaVantageDaily_object symbol fields) by (by rewrite Hjson).
    destruct Hfields as [->| ->]; [done|]. by destruct (hasMessage fields).
Qed.

(** On a time series whose rows are not [null], it answers a history of
    the rows with a finite close, sorted: one without bars on an empty
    series. *)
Lemma alphaVantageDaily_rows (symbol : string) fields rows :
  getJSON (alphaUrl symbol) = Resolved (JsonObject fields) →
  hasMessage fields = false → seriesRows fields = Some rows →
  Forall (fun row => row.2 ≠ JsonNull) rows →
  alphaVantage symbol =
    ([HttpGet (alphaUrl symbol)],
     Resolved (Some
       {| ph_symbol := symbol; ph_interval := I1d;
          ph_bars :=
            sortWith (fun a b => localeCompare (bar_t a) (bar_t b))
              (filter (fun bar => JsNumber.isFinite (bar_c bar) = true) (rowBar <$> rows));
          ph_adjusted := Some true;
          ph_dataSources := ["alphaVantage"];
          ph_sourceSymbol := None |})).
Proof.
  intros Hjson Hmsg Hrows Hall.
  rewrite (alphaVantageDaily_object symbol fields) by (by rewrite Hjson).
  rewrite Hmsg, Hrows, (mapM_alphaBar_rows rows Hall). done.
Qed.

(** On a time series with a [null] row, it rejects. *)
Lemma alphaVantageDaily_null_row (symbol : string) fields rows :
  getJSON (alphaUrl symbol) = Resolved (JsonObject fields) →
  hasMessage fields = false → seriesRows fields = Some rows →
  Exists (fun row => row.2 = JsonNull) rows →
  ∃ e, alphaVantage symbol = ([HttpGet (alphaUrl symbol)], Rejected e).
Proof.
  intros Hjson Hmsg Hrows Hex.
  rewrite (alphaVantageDaily_object symbol fields) by (by rewrite Hjson).
  rewrite Hmsg, Hrows. destruct (mapM_alphaBar_null rows Hex) as [e ->]. by eexists.
Qed.

End Enabled.

End FetcherFacts.

(** The invariant of a price history: bars in ascending order of their date
    strings, every close finite. *)
Definition priceHistoryInvariant (ph : PriceHistory) : Prop :=
  Sorted (fun a b => String.leb (bar_t a) (bar_t b) = true) (ph_bars ph) ∧
  Forall (fun bar => JsNumber.isFinite (bar_c bar) = true) (ph_bars ph).

(** A download whose rows are in descending order of date. *)
Definition descendingCsv : string :=
  "Date,Open,High,Low,Close,Volume" ++ String lineFeed
  ("2024-01-03,434,436,432,433.25,1000" ++ String lineFeed
  ("2024-01-02,433,437,431,435.5,1200" ++ String lineFeed "")).

(** C4: [stooqDaily] keeps the rows of the download in their order; on a
    download in descending order the history it answers is not sorted
    ascending. *)
Theorem stooqDaily_descending_download :
  ∃ t ph,
    stooqDaily (fun s => s) (fun _ => Resolved descendingCsv) "VT" = (t, Resolved (Some ph)) ∧
    bar_t <$> ph_bars ph = ["2024-01-03"; "2024-01-02"] ∧
    bar_c <$> ph_bars ph = [433.25%float; 435.5%float] ∧
    ¬ priceHistoryInvariant ph.
Proof.
  eexists _, _. split; [vm_compute; reflexivity|]. split_and!; [done|done|].
  intros [Hsorted _]. simpl in Hsorted.
  apply Sorted_inv in Hsorted as [_ Hhd]. apply HdRel_inv in Hhd.
  vm_compute in Hhd. discriminate.
Qed.

End ProviderFacts.

(** ** Properties of the snapshot action *)

Module SnapshotFacts.
Import Effects EffectFacts Types Providers Snapshot.
Local Open Scope effect_scope.

Section HandlerFacts.
Variable numberToString : float → string.
Variable encodeURIComponent : string → string.
Variable localeCompare : string → string → Z.
Variable settings : Rip2EtfSettings.
Variable getJSON : string → Outcome Json.Json.
Variable getText : string → Outcome string.
Variable fmpEtfProfile : string → M Event (option Fragment).
Variable finnhubEtfProfile : string → M Event (option Fragment).
Variable fmpEtfHoldings : string → M Event (option EtfHoldings).
Variable manualOverview : string → option Fragment.
Variable manualHoldings : string → option EtfHoldings.
Variable createLineChartImage :
  list string → list ChartDataset → string → Outcome ChartResult.
Variable now : Z.
Variable CHART_DUMP_DEBUG_ENABLED : bool.
Variable agentId : string.
Variable StateData : Type.
Variable emptyStateData : StateData.
Variable ensureCorrelationId : State StateData → Message → string.

Local Abbreviation fetchAll' :=
  (fetchAll numberToString encodeURIComponent localeCompare settings getJSON getText
     fmpEtfProfile finnhubEtfProfile fmpEtfHoldings manualOverview manualHoldings).
Local Abbreviation renderSnapshot' :=
  (renderSnapshot numberToString createLineChartImage now CHART_DUMP_DEBUG_ENABLED).
Local Abbreviation buildSnapshot' :=
  (buildSnapshot numberToString encodeURIComponent localeCompare settings getJSON getText
     fmpEtfProfile finnhubEtfProfile fmpEtfHoldings manualOverview manualHoldings
     createLineChartImage now CHART_DUMP_DEBUG_ENABLED).
Local Abbreviation handler' :=
  (handler numberToString encodeURIComponent localeCompare settings getJSON getText
     fmpEtfProfile finnhubEtfProfile fmpEtfHoldings manualOverview manualHoldings
     createLineChartImage now CHART_DUMP_DEBUG_ENABLED agentId StateData emptyStateData
     ensureCorrelationId).

(** The loop over the candidates never rejects: the failure of one fetch
    is caught. *)
Lemma fetchAll_resolves (candidates : list string)
    (symbolDataMap : gmap string SymbolDataset) :
  ∃ t m, fetchAll' candidates symbolDataMap = (t, Resolved m).
Proof.
  revert symbolDataMap. induction candidates as [|candidate rest IH]; intros symbolDataMap.
  - by eexists _, _.
  - cbn [fetchAll].
    destruct (fetchSymbolDataset _ _ _ _ _ _ _ _ _ _ _ candidate) as [t [dataset|e]].
    + destruct (IH (<[candidate := dataset]> symbolDataMap)) as (t' & m & Hm).
      simpl. rewrite Hm. by eexists _, _.
    + destruct (IH symbolDataMap) as (t' & m & Hm).
      simpl. rewrite Hm. by eexists _, _.
Qed.

(** The overview lines, when they can be formatted. *)
Lemma overviewSections_Resolved (primarySymbol : string) (overview : EtfOverview) t lines :
  overviewSections numberToString primarySymbol overview = (t, Resolved lines) →
  ∃ ter aum nav,
    formatPercent numberToString (js_get (ov_fields overview) K_expenseRatio) = Resolved ter ∧
    formatCurrency numberToString (js_get (ov_fields overview) K_aumUSD) = Resolved aum ∧
    formatCurrency numberToString (js_get (ov_fields overview) K_navUSD) = Resolved nav ∧
    lines =
      [ "**" ++ primarySymbol ++ " · snapshot dati**";
        "- Issuer: " ++ orPlaceholder numberToString (js_get (ov_fields overview) K_issuer);
        "- Categoria: " ++ orPlaceholder numberToString (js_get (ov_fields overview) K_category);
        "- Benchmark: " ++ orPlaceholder numberToString (js_get (ov_fields overview) K_benchmark);
        "- TER: " ++ ter;
        "- AUM: " ++ aum;
        "- NAV: " ++ nav ++ " (ultimo close "
          ++ orPlaceholder numberToString (js_get (ov_fields overview) K_lastCloseDate) ++ ")" ].
Proof.
  unfold overviewSections. intros H.
  apply bind_Resolved in H as (? & ter & ? & Hter & H & _).
  apply bind_Resolved in H as (? & aum & ? & Haum & H & _).
  apply bind_Resolved in H as (? & nav & ? & Hnav & H & _).
  injection H as _ <-. injection Hter as Hter. injection Haum as Haum. injection Hnav as Hnav.
  by exists ter, aum, nav.
Qed.

(** A reply built by [renderSnapshot] is a success whose text starts with
    the overview lines. *)
Definition IsSnapshotReply (result : ActionResult) : Prop :=
  ar_success result = true ∧
  ∃ primarySymbol overview t lines rest payload,
    overviewSections numberToString primarySymbol overview = (t, Resolved lines) ∧
    ar_text result =
      Some (String.concat newline
              (filter (fun section => section ≠ "") (lines ++ rest)%list)) ∧
    ar_data result = DataSnapshot payload ∧
    sp_primarySymbol payload = primarySymbol ∧ sp_overview payload = overview.

Lemma renderSnapshot_Resolved corrId candidates symbolDataMap primarySymbol primaryData
    t result :
  renderSnapshot' corrId candidates symbolDataMap primarySymbol primaryData
    = (t, Resolved result) →
  IsSnapshotReply result.
Proof.
  unfold renderSnapshot. cbv zeta. intros H.
  apply bind_Resolved in H as (? & chartResult & ? & _ & H & _).
  apply bind_Resolved in H as (? & [] & ? & _ & H & _).
  apply bind_Resolved in H as (t0 & lines & ? & Hlines & H & _).
  injection H as _ <-. split; [done|].
  eexists primarySymbol, (ds_overview primaryData), t0, lines, _, _.
  split_and!; [exact Hlines|reflexivity|reflexivity|reflexivity|reflexivity].
Qed.

Lemma buildSnapshot_Resolved (message : Message) (corrId : string) t result :
  buildSnapshot' message corrId = (t, Resolved result) →
  result = missingSymbolResult ∨ result = noDataResult ∨ IsSnapshotReply result.
Proof.
  unfold buildSnapshot. intros H.
  destruct (candidatesOf message) as [|c cs]; [left; by injection H|].
  apply bind_Resolved in H as (? & symbolDataMap & ? & _ & H & _).
  destruct (list_find _ _) as [[i primarySymbol]|]; [|right; left; by injection H].
  destruct (symbolDataMap !! primarySymbol) as [primaryData|]; [|done].
  right; right. by eapply renderSnapshot_Resolved.
Qed.

(** The state the handler works on: the one passed, or a fresh one. *)
Definition stateOf (state : option (State StateData)) : State StateData :=
  default {| st_cache := None; st_data := emptyStateData |} state.

(** The four ways in which the handler answers. *)
Definition HandlerAnswer (message : Message) (state : option (State StateData))
    (result : ActionResult) : Prop :=
  let st := stateOf state in
  let corrId := ensureCorrelationId st message in
  (isAgentMessage agentId message = true ∧ result = ignoredResult)
  ∨ (isAgentMessage agentId message = false ∧
     default ∅ (st_cache StateData st) !! cacheKeyOf message corrId = Some result)
  ∨ (∃ t error,
       buildSnapshot' message corrId = (t, Rejected error) ∧
       result = failureResult
                  (messageOr error
                     (fun _ => "Errore inatteso durante la generazione snapshot")))
  ∨ (∃ t,
       buildSnapshot' message corrId = (t, Resolved result) ∧
       (result = missingSymbolResult ∨ result = noDataResult
        ∨ IsSnapshotReply result)).

(** What the handler answers when the reply callback does not reject. *)
Lemma handler_resolves (message : Message) (state : option (State StateData))
    (callback : option (string → Outcome unit)) :
  (∀ call text, callback = Some call → ∃ u, call text = Resolved u) →
  ∃ trace result,
    fst (handler' message state callback) = (trace, Resolved result) ∧
    HandlerAnswer message state result.
Proof.
  intros Hcb. unfold handler, HandlerAnswer, stateOf. cbv zeta.
  destruct (isAgentMessage agentId message) eqn:Hagent.
  { eexists _, _. split; [reflexivity|]. by left. }
  destruct (default ∅ _ !! _) as [cached|] eqn:Hcache.
  { eexists _, _. split; [reflexivity|]. right; left. eauto. }
  destruct (buildSnapshot _ _ _ _ _ _ _ _ _ _ _ _ _ _ message _)
    as [trace [result|error]] eqn:Hbuild.
  - eexists _, _. split; [reflexivity|]. do 3 right. exists trace. split; [done|].
    by eapply buildSnapshot_Resolved.
  - destruct callback as [call|].
    + destruct (Hcb call (failureText (messageOr error
          (fun _ => "Errore inatteso durante la generazione snapshot")))) as [[] Hcall];
        [done|].
      simpl. rewrite Hcall. simpl. eexists _, _. split; [reflexivity|].
      right; right; left. eauto.
    + simpl. eexists _, _. split; [reflexivity|]. right; right; left. eauto.
Qed.

(** A field that is absent from the overview is rendered as [n/d]. *)
Lemma overviewSections_placeholders (primarySymbol : string) (overview : EtfOverview)
    t lines :
  overviewSections numberToString primarySymbol overview = (t, Resolved lines) →
  let absent k := js_get (ov_fields overview) k = JUndefined in
  (absent K_issuer → lines !! 1 = Some "- Issuer: n/d") ∧
  (absent K_category → lines !! 2 = Some "- Categoria: n/d") ∧
  (absent K_benchmark → lines !! 3 = Some "- Benchmark: n/d") ∧
  (absent K_expenseRatio → lines !! 4 = Some "- TER: n/d") ∧
  (absent K_aumUSD → lines !! 5 = Some "- AUM: n/d") ∧
  (absent K_navUSD → absent K_lastCloseDate →
     lines !! 6 = Some "- NAV: n/d (ultimo close n/d)").
Proof.
  intros H. apply overviewSections_Resolved in H as (ter & aum & nav & Hter & Haum & Hnav & ->).
  cbv zeta. split_and!.
  - intros E. simpl. by rewrite E.
  - intros E. simpl. by rewrite E.
  - intros E. simpl. by rewrite E.
  - intros E. rewrite E in Hter. injection Hter as <-. done.
  - intros E. rewrite E in Haum. injection Haum as <-. done.
  - intros E E'. rewrite E in Hnav. injection Hnav as <-. simpl. by rewrite E'.
Qed.

(** A cache hit answers the cached result, performs nothing, and leaves the
    state as it is. *)
Lemma handler_cache_hit (message : Message) (state : State StateData)
    (callback : option (string → Outcome unit)) (cached : ActionResult) :
  isAgentMessage agentId message = false →
  default ∅ (st_cache StateData state)
    !! cacheKeyOf message (ensureCorrelationId state message) = Some cached →
  handler' message (Some state) callback = (([], Resolved cached), state).
Proof. intros Hagent Hcache. unfold handler. simpl. by rewrite Hagent, Hcache. Qed.

(** The agent's own message is answered without any effect, whatever the
    cache holds. *)
Lemma handler_self_message (message : Message) (state : State StateData)
    (callback : option (string → Outcome unit)) :
  isAgentMessage agentId message = true →
  handler' message (Some state) callback = (([], Resolved ignoredResult), state).
Proof. intros Hagent. unfold handler. simpl. by rewrite Hagent. Qed.

(** When building fails and the reply callback rejects, the handler
    rejects. *)
Lemma handler_rejects (message : Message) (state : option (State StateData))
    (call : string → Outcome unit) t error e :
  isAgentMessage agentId message = false →
  default ∅ (st_cache StateData (stateOf state))
    !! cacheKeyOf message (ensureCorrelationId (stateOf state) message) = None →
  buildSnapshot' message (ensureCorrelationId (stateOf state) message)
    = (t, Rejected error) →
  call (failureText (messageOr error
          (fun _ => "Errore inatteso durante la generazione snapshot"))) = Rejected e →
  fst (handler' message state (Some call)) =
    ((t ++ [Reply (failureText (messageOr error
               (fun _ => "Errore inatteso durante la generazione snapshot")))])%list,
     Rejected e).
Proof.
  intros Hagent Hmiss Hbuild Hcall. unfold handler. fold (stateOf state). cbv zeta.
  rewrite Hagent, Hmiss, Hbuild. cbn [fst]. unfold bind at 1. unfold bind at 1.
  unfold perform. by rewrite Hcall.
Qed.


(** C6 (as amended): for a message that is not the agent's own, a cache
    hit answers exactly the cached result, without any effect (nothing is
    fetched or rebuilt), and leaves the state unchanged; the agent's own
    message is answered with the skip result, without any effect, whatever the
    cache holds. *)
Theorem snapshot_handler_idempotent :
  (∀ message state callback cached,
     isAgentMessage agentId message = false →
     default ∅ (st_cache StateData state)
       !! cacheKeyOf message (ensureCorrelationId state message) = Some cached →
     handler' message (Some state) callback = (([], Resolved cached), state)) ∧
  (∀ message state callback,
     isAgentMessage agentId message = true →
     handler' message (Some state) callback = (([], Resolved ignoredResult), state)).
Proof.
  split.
  - intros. by apply handler_cache_hit.
  - intros. by apply handler_self_message.
Qed.

End HandlerFacts.

(** *** A small world to run the handler in *)

Definition demoSettings : Rip2EtfSettings :=
  {| ALPHAVANTAGE_API_KEY := ""; FMP_API_KEY := ""; FINNHUB_API_KEY := "";
     FRED_API_KEY := ""; DEBUG := false; ENABLE_ALPHA_VANTAGE := false;
     ENABLE_FMP := false; ENABLE_FINNHUB := false |}.

Definition demoCsv : string :=
  "Date,Open,High,Low,Close,Volume" ++ String lineFeed
  ("2024-01-02,433,437,431,435.5,1200" ++ String lineFeed
  ("2024-01-03,434,436,432,433.25,1000" ++ String lineFeed "")).

Definition demoMessage : Message :=
  {| msg_id := Some "m-1"; msg_entityId := "user-1"; msg_roomId := Some "room-1";
     msg_content := Some {| Tickers.c_symbol := Tickers.AOther;
                            Tickers.c_symbols := Tickers.AOther;
                            Tickers.c_text := Some "Snapshot VOO" |};
     msg_role := None; msg_authorId := None; msg_source := None; msg_tags := None |}.

(** The handler with Stooq as the only source of data. *)
Definition demoHandler
    (createLineChartImage : list string → list ChartDataset → string → Outcome ChartResult)
    : Message → option (State unit) → option (string → Outcome unit)
      → M Event ActionResult * State unit :=
  handler (fun _ => "") (fun s => s) (fun _ _ => 0%Z) demoSettings
    (fun _ => Rejected (ThrownError "offline")) (fun _ => Resolved demoCsv)
    (fun _ => ret None) (fun _ => ret None) (fun _ => ret None)
    (fun _ => None) (fun _ => None)
    createLineChartImage 0%Z false "agent-1" unit tt (fun _ _ => "corr-1").

Definition failingChart (labels : list string) (datasets : list ChartDataset)
    (title : string) : Outcome ChartResult :=
  Rejected (ThrownError "canvas unavailable").

Definition pngChart (labels : list string) (datasets : list ChartDataset)
    (title : string) : Outcome ChartResult :=
  Resolved {| cr_chartUrl := "data:image/png;base64,AAAA"; cr_mimeType := "image/png";
              cr_buffer := "PNG"; cr_fileName := "rip2etf-chart-0.png" |}.


(** The reply callback that fails to send. *)
Definition rejectingCallback (text : string) : Outcome unit :=
  Rejected (ThrownError "send failed").


(** A state that already holds a result for the message. *)
Definition cachedState : State unit :=
  {| st_cache := Some {[ "room-1:corr-1" := missingSymbolResult ]}; st_data := tt |}.

Lemma snapshot_handler_idempotent_witness :
  demoHandler pngChart demoMessage (Some cachedState) None
    = (([], Resolved missingSymbolResult), cachedState).
Proof.
  destruct (snapshot_handler_idempotent (fun _ => "") (fun s => s) (fun _ _ => 0%Z)
              demoSettings (fun _ => Rejected (ThrownError "offline"))
              (fun _ => Resolved demoCsv)
              (fun _ => ret None) (fun _ => ret None) (fun _ => ret None)
              (fun _ => None) (fun _ => None) pngChart 0%Z false "agent-1" unit tt
              (fun _ _ => "corr-1"))
    as (Hhit & _).
  apply Hhit; [by vm_compute | by vm_compute].
Defined.

(** A message of the agent itself, in the same room. *)
Definition ownMessage : Message :=
  {| msg_id := Some "m-2"; msg_entityId := "agent-1"; msg_roomId := Some "room-1";
     msg_content := Some {| Tickers.c_symbol := Tickers.AOther;
                            Tickers.c_symbols := Tickers.AOther;
                            Tickers.c_text := Some "Snapshot VOO" |};
     msg_role := None; msg_authorId := None; msg_source := None; msg_tags := None |}.

(** C6 as stated fails: the cache holds a result under the key of the
    agent's own message, and the handler answers the skip result instead. *)
Lemma snapshot_handler_own_message_counterexample :
  ¬ (∀ (message : Message) (state : State unit) (cached : ActionResult),
       default ∅ (st_cache unit state) !! cacheKeyOf message "corr-1" = Some cached →
       fst (demoHandler pngChart message (Some state) None) = ([], Resolved cached)).
Proof.
  intros H. specialize (H ownMessage cachedState missingSymbolResult).
  assert (Hhit : default ∅ (st_cache unit cachedState) !! cacheKeyOf ownMessage "corr-1"
                 = Some missingSymbolResult) by (by vm_compute).
  specialize (H Hhit). vm_compute in H. discriminate.
Qed.

End SnapshotFacts.

(** ** More on [alignAndRebase] *)

Module AlignmentFacts.
Import Types Normalize NormalizeFacts.

Lemma filter_all {A : Type} (P : A → Prop) `{∀ x, Decision (P x)} (l : list A) :
  (∀ x, x ∈ l → P x) → filter P l = l.
Proof.
  induction l as [|x l IH]; intros Hall; [done|].
  rewrite filter_cons_True by (apply Hall, elem_of_cons; by left).
  f_equal. apply IH. intros y Hy. apply Hall, elem_of_cons. by right.
Qed.

(** While some date belongs to every series, the reducer filters the
    dates it started from. *)
Lemma foldl_commonStep_filter (rest : list PriceHistory) (acc : list string) (D : string) :
  D ∈ acc →
  (∀ ph, ph ∈ rest → D ∈ barDates ph) →
  foldl commonStep acc rest =
    filter (fun d => Forall (fun ph => d ∈ barDates ph) rest) acc.
Proof.
  revert acc. induction rest as [|ph rest IH]; intros acc HD Hall; simpl.
  - symmetry. apply filter_all. intros x _. constructor.
  - assert (Hstep : commonStep acc ph = filter (fun d => d ∈ barDates ph) acc).
    { destruct acc as [|a acc]; [by apply elem_of_nil in HD | apply commonStep_cons]. }
    rewrite Hstep, IH.
    + rewrite list_filter_filter. apply list_filter_iff. intros d.
      rewrite Forall_cons. tauto.
    + apply list_elem_of_filter. split; [|done]. apply Hall, elem_of_cons. by left.
    + intros ph' Hph'. apply Hall, elem_of_cons. by right.
Qed.

(** X1: for every input, the table has one row per series, in the order of
    the input and under the symbol of the series, and the points of every row
    carry exactly the returned dates, index by index. *)
Theorem alignAndRebase_rows_follow_dates (series : list PriceHistory) :
  cs_symbol <$> table (alignAndRebase series) = ph_symbol <$> series ∧
  Forall (fun row => pt_t <$> cs_points row = dates (alignAndRebase series))
         (table (alignAndRebase series)).
Proof.
  rewrite alignAndRebase_table, alignAndRebase_dates. split.
  - rewrite <- list_fmap_compose. by apply list_fmap_ext.
  - apply Forall_fmap, Forall_forall. intros ph _. apply rebaseSeries_dates.
Qed.

(** X2: when some date belongs to every series, the returned dates are
    the dates of the first series that belong to every other series, in the
    order of the first series. *)
Theorem alignAndRebase_common_dates
    (first : PriceHistory) (rest : list PriceHistory) (D : string) :
  D ∈ barDates first →
  (∀ ph, ph ∈ rest → D ∈ barDates ph) →
  dates (alignAndRebase (first :: rest)) =
    filter (fun d => Forall (fun ph => d ∈ barDates ph) rest) (barDates first).
Proof.
  intros HD Hall. rewrite alignAndRebase_dates. unfold commonDatesOf.
  cbn [foldl]. unfold commonStep at 2. cbn [length]. rewrite decide_True by done.
  by apply (foldl_commonStep_filter rest (barDates first) D).
Qed.

Lemma alignAndRebase_common_dates_witness :
  dates (alignAndRebase twoSeries) = ["2024-01-03"].
Proof.
  unfold twoSeries.
  rewrite (alignAndRebase_common_dates _ _ "2024-01-03").
  - vm_compute. reflexivity.
  - vm_compute. apply elem_of_cons. right. apply elem_of_cons. by left.
  - intros ph Hph. apply list_elem_of_singleton in Hph as ->.
    vm_compute. apply elem_of_cons. by left.
Defined.

(** X3: the returned sources are the data sources of the series, each
    once. *)
Theorem alignAndRebase_sources (series : list PriceHistory) :
  NoDup (sources (alignAndRebase series)) ∧
  ∀ x, x ∈ sources (alignAndRebase series) ↔
       ∃ ph, ph ∈ series ∧ x ∈ ph_dataSources ph.
Proof.
  destruct series as [|ph0 rest].
  - split; [constructor|]. intros x. split.
    + intros H. by apply elem_of_nil in H.
    + intros (ph & H & _). by apply elem_of_nil in H.
  - cbn [alignAndRebase sources]. split; [apply JsSet.of_list_NoDup|].
    intros x. rewrite JsSet.elem_of_of_list, list_elem_of_bind.
    split; intros (ph & H1 & H2); eauto.
Qed.

End AlignmentFacts.

(** ** More on symbol collection *)

Module SymbolFacts.
Import Tickers TickerFacts.

(** *** Characters kept by the cleaning *)

Definition keptChar (c : ascii) : bool := isWord c || (code c =? 46)%nat.

Fixpoint allKept (s : string) : bool :=
  match s with
  | EmptyString => true
  | String c s' => keptChar c && allKept s'
  end.

Lemma upperChar_kept (c : ascii) : keptChar c = true → keptChar (upperChar c) = true.
Proof. destruct c as [[] [] [] [] [] [] [] []]; vm_compute; done. Qed.

Lemma upperChar_idemp (c : ascii) : upperChar (upperChar c) = upperChar c.
Proof. destruct c as [[] [] [] [] [] [] [] []]; vm_compute; done. Qed.

Lemma keptChar_not_space (c : ascii) : keptChar c = true → JsConv.isSpace c = false.
Proof. destruct c as [[] [] [] [] [] [] [] []]; vm_compute; done. Qed.

Lemma stripNonWord_allKept (s : string) : allKept (stripNonWord s) = true.
Proof.
  induction s as [|c s IH]; [done|]. cbn [stripNonWord]. fold (keptChar c).
  destruct (keptChar c) eqn:Hc; [|done]. cbn [allKept]. by rewrite Hc.
Qed.

Lemma allKept_stripNonWord (s : string) : allKept s = true → stripNonWord s = s.
Proof.
  induction s as [|c s IH]; [done|]. cbn [allKept stripNonWord]. fold (keptChar c).
  intros H. apply andb_true_iff in H as [-> Hs]. by rewrite IH.
Qed.

Lemma allKept_toUpperCase (s : string) : allKept s = true → allKept (toUpperCase s) = true.
Proof.
  induction s as [|c s IH]; [done|]. cbn [allKept toUpperCase].
  intros H. apply andb_true_iff in H as [Hc Hs].
  by rewrite (upperChar_kept c Hc), IH.
Qed.

Lemma toUpperCase_idemp (s : string) : toUpperCase (toUpperCase s) = toUpperCase s.
Proof.
  induction s as [|c s IH]; [done|]. cbn [toUpperCase]. by rewrite upperChar_idemp, IH.
Qed.

Lemma toUpperCase_length (s : string) : String.length (toUpperCase s) = String.length s.
Proof. induction s as [|c s IH]; [done|]. cbn [toUpperCase String.length]. by rewrite IH. Qed.

Lemma allKept_trim (s : string) : allKept s = true → JsConv.trim s = s.
Proof.
  intros Hs. unfold JsConv.trim.
  assert (Hstart : JsConv.trimStart s = s).
  { destruct s as [|c s]; [done|]. cbn [allKept] in Hs.
    apply andb_true_iff in Hs as [Hc _]. cbn [JsConv.trimStart].
    by rewrite (keptChar_not_space c Hc). }
  rewrite Hstart. clear Hstart.
  induction s as [|c s IH]; [done|]. cbn [allKept] in Hs.
  apply andb_true_iff in Hs as [Hc Hs]. cbn [JsConv.trimEnd].
  rewrite (IH Hs), (keptChar_not_space c Hc). by destruct s.
Qed.

(** *** Clean symbols *)

(** A symbol as [collectSymbols] lets it through: no stop word, at least two
    characters, and unchanged by the cleaning and by the upper-casing. *)
Definition CleanSymbol (x : string) : Prop :=
  isStopWord x = false ∧ (2 ≤ String.length x)%nat ∧
  toUpperCase x = x ∧ stripNonWord x = x.

Lemma Stable_CleanSymbol (x : string) : Stable x → CleanSymbol x.
Proof.
  intros [Ht Hacc]. destruct (Ticker_fixed x Ht) as [Hstrip Hupper].
  unfold acceptToken in Hacc. rewrite Hstrip, Hupper in Hacc.
  destruct (bool_decide (x = "")); [done|]. cbn [orb] in Hacc.
  destruct (String.length x <? 3)%nat eqn:Hlen; [done|]. apply Nat.ltb_ge in Hlen.
  destruct (isStopWord x) eqn:Hstop; [done|].
  split_and!; [done|lia|done|done].
Qed.

Lemma normalizeSymbol_CleanSymbol (s r : string) :
  normalizeSymbol s = Some r → CleanSymbol r.
Proof.
  unfold normalizeSymbol. destruct (bool_decide (s = "")); [done|].
  destruct (bool_decide (stripNonWord s = "")); [done|]. cbn [orb].
  destruct (String.length (stripNonWord s) <? 2)%nat eqn:Hlen; [done|].
  apply Nat.ltb_ge in Hlen.
  destruct (isStopWord (toUpperCase (stripNonWord s))) eqn:Hstop; [done|].
  intros [= <-]. split_and!.
  - done.
  - by rewrite toUpperCase_length.
  - apply toUpperCase_idemp.
  - apply allKept_stripNonWord, allKept_toUpperCase, stripNonWord_allKept.
Qed.

Lemma CleanSymbol_normalizeSymbol (x : string) : CleanSymbol x → normalizeSymbol x = Some x.
Proof.
  intros (Hstop & Hlen & Hupper & Hstrip). unfold normalizeSymbol.
  rewrite Hstrip, Hupper, Hstop.
  rewrite bool_decide_eq_false_2 by (intros ->; simpl in Hlen; lia).
  cbn [orb]. by apply Nat.ltb_ge in Hlen as ->.
Qed.

(** *** Invariants of the working set *)

(** The symbols of the message, before fallbacks and limit. *)
Definition messageSymbols (content : option Content) : list string :=
  match content with
  | Some c =>
      let set := addCandidate [] (c_symbol c) in
      let set := addCandidate set (c_symbols c) in
      match c_text c with
      | Some text => extractFromText set text
      | None => set
      end
  | None => []
  end.

Lemma collectSymbols_eq content fallbackSymbols limit :
  collectSymbols content fallbackSymbols limit =
    limitResult (addFallbacks (messageSymbols content) fallbackSymbols) limit.
Proof.
  unfold collectSymbols. fold (messageSymbols content).
  by destruct (messageSymbols content).
Qed.

Section Invariant.
Variable Q : list string → Prop.
Hypothesis Q_add : ∀ set x, CleanSymbol x → Q set → Q (JsSet.add set x).

Lemma foldl_add_invariant (l set : list string) :
  Forall CleanSymbol l → Q set → Q (foldl JsSet.add set l).
Proof.
  intros Hl. revert set. induction Hl as [|x l Hx _ IH]; intros set Hset; [done|].
  cbn [foldl]. by apply IH, Q_add.
Qed.

Lemma extractFromText_invariant (set : list string) (text : string) :
  Q set → Q (extractFromText set text).
Proof.
  rewrite extractFromText_eq. apply foldl_add_invariant.
  apply Forall_forall. intros x Hx. apply list_elem_of_omap in Hx as (raw & Hraw & Hacc).
  apply Stable_CleanSymbol, (accept_Stable raw); [|done].
  pose proof (matchAll_sound (normalizePhrases text) 0 false) as Hall.
  rewrite Forall_forall in Hall. by apply Hall.
Qed.

Lemma addCandidate_invariant (value : JsAny) (set : list string) :
  Q set → Q (addCandidate set value).
Proof.
  revert value set. fix IH 1. intros [s|items|values|] set Hset; cbn [addCandidate].
  - case_bool_decide; [done|]. by apply extractFromText_invariant.
  - revert set Hset. induction items as [|item items IHitems]; intros set Hset; [done|].
    cbn [foldl]. apply IHitems, IH, Hset.
  - revert set Hset. induction values as [|item items IHitems]; intros set Hset; [done|].
    cbn [foldl]. apply IHitems, IH, Hset.
  - done.
Qed.

Lemma addFallbacks_invariant (set : list string) (fallbackSymbols : option (list string)) :
  Q set → Q (addFallbacks set fallbackSymbols).
Proof.
  destruct fallbackSymbols as [symbols|]; [|done]. cbn [addFallbacks].
  revert set. induction symbols as [|s symbols IH]; intros set Hset; [done|].
  cbn [foldl]. apply IH. destruct (normalizeSymbol s) as [r|] eqn:Hs; [|done].
  apply Q_add; [|done]. by apply (normalizeSymbol_CleanSymbol s).
Qed.

Lemma messageSymbols_invariant (content : option Content) :
  Q [] → Q (messageSymbols content).
Proof.
  intros Hnil. destruct content as [c|]; [|done]. cbn [messageSymbols].
  destruct (c_text c).
  - by apply extractFromText_invariant; do 2 apply addCandidate_invariant.
  - by do 2 apply addCandidate_invariant.
Qed.

End Invariant.

Lemma add_prefix (set : list string) (x : string) : set `prefix_of` JsSet.add set x.
Proof. unfold JsSet.add. case_decide; [done|]. by apply prefix_app_r. Qed.

(** X4: whatever the text, every match of [TICKER_REGEX] is two to six
    capital letters, optionally followed by a dot and one to three capital
    letters; it has at most ten characters, and cleaning and upper-casing leave
    it unchanged. *)
Theorem ticker_matches_are_clean (text raw : string) :
  raw ∈ matchAll 0 false text →
  Ticker raw ∧ (2 ≤ String.length raw ≤ 10)%nat ∧
  stripNonWord raw = raw ∧ toUpperCase raw = raw.
Proof.
  intros Hraw. pose proof (matchAll_sound text 0 false) as Hall.
  rewrite Forall_forall in Hall. specialize (Hall raw Hraw).
  destruct (Ticker_fixed raw Hall) as [Hstrip Hupper].
  split_and!; try done.
  - destruct Hall as (u & _ & Hlen & [->|(v & _ & Hvlen & ->)]); [lia|].
    rewrite !length_append. simpl. lia.
  - destruct Hall as (u & _ & Hlen & [->|(v & _ & Hvlen & ->)]); [lia|].
    rewrite !length_append. simpl. lia.
Qed.

Lemma ticker_matches_are_clean_witness :
  Ticker "BRK.B" ∧ (2 ≤ String.length "BRK.B" ≤ 10)%nat ∧
  stripNonWord "BRK.B" = "BRK.B" ∧ toUpperCase "BRK.B" = "BRK.B".
Proof.
  apply (ticker_matches_are_clean "Compare VOO with BRK.B today").
  vm_compute. apply elem_of_cons. right. apply elem_of_cons. by left.
Defined.

(** X5: [normalizeSymbol] is idempotent: what it answers is a symbol of at
    least two characters that is no stop word, and it answers that symbol when
    applied to it again. *)
Theorem normalizeSymbol_idempotent (candidate symbol : string) :
  normalizeSymbol candidate = Some symbol →
  normalizeSymbol symbol = Some symbol ∧
  (2 ≤ String.length symbol)%nat ∧ isStopWord symbol = false.
Proof.
  intros H. apply normalizeSymbol_CleanSymbol in H.
  split; [by apply CleanSymbol_normalizeSymbol|]. by destruct H as (? & ? & _).
Qed.

Lemma normalizeSymbol_idempotent_witness :
  normalizeSymbol "VT" = Some "VT" ∧
  (2 ≤ String.length "VT")%nat ∧ isStopWord "VT" = false.
Proof. apply (normalizeSymbol_idempotent " vt!"). by vm_compute. Defined.

(** What [collectSymbols] answers has no duplicates and only clean
    symbols. *)
Lemma collectSymbols_invariants (content : option Content)
    (fallbackSymbols : option (list string)) (limit : option Z) :
  NoDup (collectSymbols content fallbackSymbols limit) ∧
  Forall CleanSymbol (collectSymbols content fallbackSymbols limit).
Proof.
  rewrite collectSymbols_eq.
  assert (H : NoDup (addFallbacks (messageSymbols content) fallbackSymbols) ∧
              Forall CleanSymbol (addFallbacks (messageSymbols content) fallbackSymbols)).
  { apply (addFallbacks_invariant (fun set => NoDup set ∧ Forall CleanSymbol set)).
    - intros set x Hx [Hnd Hall]. split; [by apply JsSet.add_NoDup|].
      apply Forall_forall. intros y Hy. apply JsSet.elem_of_add in Hy as [Hy| ->]; [|done].
      rewrite Forall_forall in Hall. by apply Hall.
    - apply (messageSymbols_invariant (fun set => NoDup set ∧ Forall CleanSymbol set)).
      + intros set x Hx [Hnd Hall]. split; [by apply JsSet.add_NoDup|].
        apply Forall_forall. intros y Hy. apply JsSet.elem_of_add in Hy as [Hy| ->]; [|done].
        rewrite Forall_forall in Hall. by apply Hall.
      + split; constructor. }
  destruct H as [Hnd Hall]. unfold limitResult.
  destruct limit as [n|]; [|done]. destruct (0 <? n)%Z; [|done].
  split; [|by apply Forall_take].
  eapply sublist_NoDup; [done|apply sublist_take].
Qed.

(** X6: whatever the content, the fallbacks and the limit, [collectSymbols]
    answers a list without duplicates, none of whose symbols is a stop word,
    shorter than two characters, or changed by cleaning or upper-casing. *)
Theorem collectSymbols_clean (content : option Content)
    (fallbackSymbols : option (list string)) (limit : option Z) :
  NoDup (collectSymbols content fallbackSymbols limit) ∧
  ∀ x, x ∈ collectSymbols content fallbackSymbols limit →
       isStopWord x = false ∧ (2 ≤ String.length x)%nat ∧
       toUpperCase x = x ∧ stripNonWord x = x.
Proof.
  destruct (collectSymbols_invariants content fallbackSymbols limit) as [Hnd Hclean].
  split; [done|]. intros x Hx. rewrite Forall_forall in Hclean. by apply Hclean.
Qed.

(** X7: with a positive limit [n], [collectSymbols] answers the first [n]
    symbols of what it answers without a limit, hence at most [n] symbols; a
    limit that is not positive is no limit. *)
Theorem collectSymbols_limit (content : option Content)
    (fallbackSymbols : option (list string)) (n : Z) :
  ((0 < n)%Z →
     collectSymbols content fallbackSymbols (Some n) =
       take (Z.to_nat n) (collectSymbols content fallbackSymbols None) ∧
     (length (collectSymbols content fallbackSymbols (Some n)) ≤ Z.to_nat n)%nat) ∧
  ((n ≤ 0)%Z →
     collectSymbols content fallbackSymbols (Some n) =
       collectSymbols content fallbackSymbols None).
Proof.
  rewrite !collectSymbols_eq. unfold limitResult. split; intros Hn.
  - apply Z.ltb_lt in Hn as ->. split; [done|]. rewrite length_take. lia.
  - by apply Z.ltb_ge in Hn as ->.
Qed.

Lemma collectSymbols_limit_witness :
  collectSymbols (Some {| c_symbol := AOther; c_symbols := AOther;
                          c_text := Some "VOO VWCE IWDA" |}) None (Some 2%Z)
    = ["VOO"; "VWCE"].
Proof.
  destruct (collectSymbols_limit
              (Some {| c_symbol := AOther; c_symbols := AOther;
                       c_text := Some "VOO VWCE IWDA" |}) None 2) as [Hpos _].
  destruct Hpos as [-> _]; [lia|]. by vm_compute.
Defined.

(** X8: the symbols found in the message come first: what [collectSymbols]
    answers without fallbacks is a prefix of what it answers with them, and
    every further symbol is the normalised form of a fallback. *)
Theorem collectSymbols_message_first (content : option Content) (fallbacks : list string) :
  collectSymbols content None None `prefix_of` collectSymbols content (Some fallbacks) None ∧
  ∀ x, x ∈ collectSymbols content (Some fallbacks) None →
       x ∈ collectSymbols content None None ∨
       ∃ s, s ∈ fallbacks ∧ normalizeSymbol s = Some x.
Proof.
  rewrite !collectSymbols_eq. cbn [limitResult addFallbacks].
  generalize (messageSymbols content). intros set. split.
  - revert set. induction fallbacks as [|s fallbacks IH]; intros set; [done|].
    cbn [foldl]. etrans; [|apply IH].
    destruct (normalizeSymbol s); [apply add_prefix|done].
  - revert set. induction fallbacks as [|s fallbacks IH]; intros set x Hx.
    + by left.
    + cbn [foldl] in Hx. apply IH in Hx as [Hx|(s' & Hs' & Hx)].
      * destruct (normalizeSymbol s) as [r|] eqn:Hs; [|by left].
        apply JsSet.elem_of_add in Hx as [Hx| ->]; [by left|].
        right. exists s. split; [apply elem_of_cons; by left|done].
      * right. exists s'. split; [apply elem_of_cons; by right|done].
Qed.

End SymbolFacts.

(** ** More on the provider fetchers *)

Module DownloadFacts.
Import Effects EffectFacts Types Json Providers ProviderFacts.
Local Open Scope effect_scope.

Lemma length_add (set : list string) (x : string) :
  (length (JsSet.add set x) ≤ S (length set))%nat.
Proof. unfold JsSet.add. case_decide; [lia|]. rewrite length_app. simpl. lia. Qed.

Lemma length_foldl_add (l set : list string) :
  (length (foldl JsSet.add set l) ≤ length set + length l)%nat.
Proof.
  revert set. induction l as [|x l IH]; intros set; simpl; [lia|].
  etrans; [apply IH|]. pose proof (length_add set x). lia.
Qed.

Lemma append_inj_l (base a b : string) : base ++ a = base ++ b → a = b.
Proof.
  induction base as [|c base IH]; [done|].
  rewrite !TickerFacts.append_cons. intros [= H]. by apply IH.
Qed.

(** The URL of the download of one variant. *)
Definition stooqUrl (encodeURIComponent : string → string) (candidate : string) : string :=
  "https://stooq.com/q/d/l/?s=" ++ encodeURIComponent candidate ++ "&i=d".

(** A comparison of date strings by code units. *)
Definition compareCodeUnits (a b : string) : Z :=
  match String.compare a b with
  | Lt => (-1)%Z
  | Eq => 0%Z
  | Gt => 1%Z
  end.

Lemma compareCodeUnits_consistent (a b : string) :
  (0 < compareCodeUnits a b)%Z → (compareCodeUnits b a <= 0)%Z.
Proof.
  unfold compareCodeUnits. rewrite (String.compare_antisym a b).
  destruct (String.compare b a); simpl; lia.
Qed.

Section Downloads.
Variable numberToString : float → string.
Variable encodeURIComponent : string → string.
Variable localeCompare : string → string → Z.
Variable settings : Rip2EtfSettings.
Variable getJSON : string → Outcome Json.
Variable getText : string → Outcome string.

Lemma stooqLoop_trace (symbol : string) (candidates : list string) :
  ∃ n r,
    stooqLoop encodeURIComponent getText symbol candidates =
      ((fun c => HttpGet (stooqUrl encodeURIComponent c)) <$> take n candidates, Resolved r) ∧
    (r = None → take n candidates = candidates).
Proof.
  induction candidates as [|candidate rest (n & r & IH & Hall)].
  - exists 0, None. done.
  - cbn [stooqLoop]. fold (stooqUrl encodeURIComponent candidate).
    unfold bind at 1, perform.
    destruct (getText _) as [csv|e].
    + destruct (stooqBars csv) as [bars|].
      * exists 1, (Some {| ph_symbol := symbol; ph_interval := I1d; ph_bars := bars;
                           ph_adjusted := Some false; ph_dataSources := ["stooq"];
                           ph_sourceSymbol := Some candidate |}).
        split; [reflexivity|done].
      * rewrite IH. exists (S n), r. split; [done|]. intros Hr. cbn [take]. by rewrite Hall.
    + rewrite IH. exists (S n), r. split; [done|]. intros Hr. cbn [take]. by rewrite Hall.
Qed.


(** X10: a history answered by [stooqDaily] has at least one bar, every
    close is finite, and it comes from the usable download of one of the
    variants of the symbol, which it names as its source symbol. *)
Theorem stooqDaily_history_shape (symbol : string) t (ph : PriceHistory) :
  stooqDaily encodeURIComponent getText symbol = (t, Resolved (Some ph)) →
  ph_bars ph ≠ [] ∧
  Forall (fun bar => JsNumber.isFinite (bar_c bar) = true) (ph_bars ph) ∧
  ph_symbol ph = symbol ∧ ph_dataSources ph = ["stooq"] ∧
  ∃ candidates candidate csv,
    buildTickerVariants symbol = Resolved candidates ∧ candidate ∈ candidates ∧
    ph_sourceSymbol ph = Some candidate ∧
    getText (stooqUrl encodeURIComponent candidate) = Resolved csv ∧
    stooqBars csv = Some (ph_bars ph).
Proof.
  unfold stooqDaily. intros H.
  apply bind_Resolved in H as (t1 & candidates & t2 & Hvariants & H & _).
  injection Hvariants as _ Hvariants.
  apply stooqLoop_Some in H as (candidate & csv & Hin & Hget & Hbars & Hsymbol & Hsource & Hds).
  destruct (stooqBars_Some csv _ Hbars) as (Hne & Hfinite & _).
  split_and!; try done. by exists candidates, candidate, csv.
Qed.


(** X12: a symbol without an entry of its own has the eight variants made
    of its lower-case form and each suffix, the bare lower-case symbol
    first. *)
Theorem buildTickerVariants_suffixes (symbol : string) :
  toLowerCase symbol ∉ inheritedNames →
  explicitVariants !! toLowerCase symbol = None →
  buildTickerVariants symbol =
    Resolved ((fun suffix => toLowerCase symbol ++ suffix) <$> SUFFIXES).
Proof.
  intros Hname Hexplicit. unfold buildTickerVariants.
  rewrite bool_decide_eq_false_2 by done. rewrite Hexplicit. cbn [default].
  f_equal. apply JsSet.of_list_NoDup_id.
  apply (NoDup_fmap_2_strong (fun suffix => toLowerCase symbol ++ suffix)).
  - intros a b _ _. apply append_inj_l.
  - apply (bool_decide_unpack _). by vm_compute.
Qed.

End Downloads.

(** An answer of Alpha Vantage with two rows, the latest first, and a row
    without a usable close. *)
Definition demoSeries : Json :=
  JsonObject
    [ ("Meta Data", JsonObject []);
      ("Time Series (Daily)",
       JsonObject
         [ ("2024-01-03", JsonObject [("4. close", JsonString "433.25")]);
           ("2024-01-02", JsonObject [("4. close", JsonString "435.5")]);
           ("2024-01-01", JsonObject [("4. close", JsonString "n/a")]) ]) ].

Definition keyedSettings : Rip2EtfSettings :=
  {| ALPHAVANTAGE_API_KEY := "demo"; FMP_API_KEY := ""; FINNHUB_API_KEY := "";
     FRED_API_KEY := ""; DEBUG := false; ENABLE_ALPHA_VANTAGE := true;
     ENABLE_FMP := false; ENABLE_FINNHUB := false |}.


Lemma stooqDaily_history_shape_witness :
  ∃ t ph,
    stooqDaily (fun s => s) (fun _ => Resolved descendingCsv) "VT" = (t, Resolved (Some ph)) ∧
    ph_bars ph ≠ [] ∧ ph_sourceSymbol ph = Some "vt".
Proof.
  eexists _, _. split; [vm_compute; reflexivity|].
  edestruct (stooqDaily_history_shape (fun s => s) (fun _ => Resolved descendingCsv) "VT")
    as (Hne & _ & _ & _ & _); [vm_compute; reflexivity|].
  split; [exact Hne|reflexivity].
Defined.


Lemma buildTickerVariants_suffixes_witness :
  buildTickerVariants "VT" =
    Resolved ["vt"; "vt.us"; "vt.de"; "vt.uk"; "vt.ln"; "vt.pa"; "vt.hk"; "vt.jp"].
Proof.
  rewrite (buildTickerVariants_suffixes "VT").
  - reflexivity.
  - vm_compute. intros H. repeat (apply elem_of_cons in H as [[=]|H]). by apply elem_of_nil in H.
  - by vm_compute.
Defined.

End DownloadFacts.

(** ** More on the snapshot action *)

Module ActionFacts.
Import Effects EffectFacts Types Providers Snapshot SnapshotFacts.
Local Open Scope effect_scope.

(** The trimming, the upper-casing and the deduplication of [buildSnapshot]
    leave the collected symbols as they are. *)
Lemma candidatesOf_collected (message : Message) :
  candidatesOf message = Tickers.collectSymbols (msg_content message) None (Some 6%Z).
Proof.
  unfold candidatesOf. cbv zeta.
  destruct (SymbolFacts.collectSymbols_invariants (msg_content message) None (Some 6%Z))
    as [Hnd Hclean].
  generalize dependent (Tickers.collectSymbols (msg_content message) None (Some 6%Z)).
  intros l Hnd Hclean.
  assert (Hmap : map (fun symbol => Tickers.toUpperCase (JsConv.trim symbol)) l = l).
  { clear Hnd. induction Hclean as [|x l (_ & _ & Hupper & Hstrip) _ IH]; [done|].
    cbn [map]. rewrite IH. f_equal.
    rewrite SymbolFacts.allKept_trim; [done|].
    rewrite <- Hstrip. apply SymbolFacts.stripNonWord_allKept. }
  rewrite Hmap.
  assert (Hfilter : filter (fun s : string => s ≠ "") l = l).
  { clear Hnd Hmap. induction Hclean as [|x l (_ & Hlen & _) _ IH]; [done|].
    rewrite filter_cons_True by (intros ->; simpl in Hlen; lia). by rewrite IH. }
  rewrite Hfilter. by apply JsSet.of_list_NoDup_id.
Qed.

Lemma collectSymbols_one_six (content : option Tickers.Content) :
  Tickers.collectSymbols content None (Some 1%Z) = [] ↔
  Tickers.collectSymbols content None (Some 6%Z) = [].
Proof.
  rewrite !SymbolFacts.collectSymbols_eq. cbn.
  by destruct (SymbolFacts.messageSymbols content).
Qed.

Section Action.
Variable numberToString : float → string.
Variable encodeURIComponent : string → string.
Variable localeCompare : string → string → Z.
Variable settings : Rip2EtfSettings.
Variable getJSON : string → Outcome Json.Json.
Variable getText : string → Outcome string.
Variable fmpEtfProfile : string → M Event (option Fragment).
Variable finnhubEtfProfile : string → M Event (option Fragment).
Variable fmpEtfHoldings : string → M Event (option EtfHoldings).
Variable manualOverview : string → option Fragment.
Variable manualHoldings : string → option EtfHoldings.
Variable createLineChartImage :
  list string → list ChartDataset → string → Outcome ChartResult.
Variable now : Z.
Variable CHART_DUMP_DEBUG_ENABLED : bool.
Variable agentId : string.
Variable StateData : Type.
Variable emptyStateData : StateData.
Variable ensureCorrelationId : State StateData → Message → string.

Local Abbreviation fetchSymbolDataset' :=
  (fetchSymbolDataset numberToString encodeURIComponent localeCompare settings getJSON
     getText fmpEtfProfile finnhubEtfProfile fmpEtfHoldings manualOverview manualHoldings).
Local Abbreviation fetchAll' :=
  (fetchAll numberToString encodeURIComponent localeCompare settings getJSON getText
     fmpEtfProfile finnhubEtfProfile fmpEtfHoldings manualOverview manualHoldings).
Local Abbreviation renderSnapshot' :=
  (renderSnapshot numberToString createLineChartImage now CHART_DUMP_DEBUG_ENABLED).
Local Abbreviation buildSnapshot' :=
  (buildSnapshot numberToString encodeURIComponent localeCompare settings getJSON getText
     fmpEtfProfile finnhubEtfProfile fmpEtfHoldings manualOverview manualHoldings
     createLineChartImage now CHART_DUMP_DEBUG_ENABLED).
Local Abbreviation handler' :=
  (handler numberToString encodeURIComponent localeCompare settings getJSON getText
     fmpEtfProfile finnhubEtfProfile fmpEtfHoldings manualOverview manualHoldings
     createLineChartImage now CHART_DUMP_DEBUG_ENABLED agentId StateData emptyStateData
     ensureCorrelationId).
Local Abbreviation stateOf' := (stateOf StateData emptyStateData).

(** [snapshotAction.validate] *)
Definition validate (message : Message) : bool :=
  if isAgentMessage agentId message then false
  else (0 <? length (Tickers.collectSymbols (msg_content message) None (Some 1%Z)))%nat.

(** X13: the candidates of [buildSnapshot] are exactly the symbols that
    [collectSymbols] answers with the limit 6: there are at most six, without
    duplicates, and the trimming, upper-casing and deduplication change
    nothing. *)
Theorem candidatesOf_are_collected (message : Message) :
  candidatesOf message = Tickers.collectSymbols (msg_content message) None (Some 6%Z) ∧
  NoDup (candidatesOf message) ∧ (length (candidatesOf message) ≤ 6)%nat.
Proof.
  rewrite (candidatesOf_collected message). split; [done|]. split.
  - apply SymbolFacts.collectSymbols_invariants.
  - rewrite SymbolFacts.collectSymbols_eq. cbn. rewrite length_take. lia.
Qed.

(** X14: [validate] accepts a message exactly when it is not the agent's
    own and [buildSnapshot] has a candidate for it; a message that it accepts
    is never answered by the missing-symbol explanation, and a message of
    another author that it refuses is answered by that explanation without any
    request. *)
Theorem validate_missing_symbol (message : Message) (corrId : string) :
  (validate message = true ↔
     isAgentMessage agentId message = false ∧ candidatesOf message ≠ []) ∧
  (validate message = true →
     ∀ t result, buildSnapshot' message corrId = (t, Resolved result) →
                 result ≠ missingSymbolResult) ∧
  (validate message = false → isAgentMessage agentId message = false →
     buildSnapshot' message corrId = ([], Resolved missingSymbolResult)).
Proof.
  assert (Hiff : validate message = true ↔
            isAgentMessage agentId message = false ∧ candidatesOf message ≠ []).
  { unfold validate. rewrite (candidatesOf_collected message), <- collectSymbols_one_six.
    destruct (isAgentMessage agentId message); [by split; [|intros []]|].
    destruct (Tickers.collectSymbols _ _ _); simpl; split; try done; by intros []. }
  split_and!; [exact Hiff| |].
  - intros Hvalid t result Hbuild ->. apply Hiff in Hvalid as [_ Hcandidates].
    unfold buildSnapshot in Hbuild.
    destruct (candidatesOf message) as [|c cs]; [done|].
    apply bind_Resolved in Hbuild as (? & symbolDataMap & ? & _ & Hbuild & _).
    destruct (list_find _ _) as [[i primarySymbol]|]; [|by injection Hbuild].
    destruct (symbolDataMap !! primarySymbol) as [primaryData|]; [|done].
    apply renderSnapshot_Resolved in Hbuild as [Hsuccess _]. done.
  - intros Hinvalid Hagent. unfold buildSnapshot.
    destruct (candidatesOf message) as [|c cs] eqn:Hcandidates; [done|].
    assert (validate message = true) as Hvalid; [|by rewrite Hvalid in Hinvalid].
    apply Hiff. split; done.
Qed.

(** X15: when building the snapshot fails, the handler reports the failure
    once through the reply callback, when there is one and it does not reject,
    answers the failure result with the message of the error, and leaves the
    state as it was: nothing is cached. *)
Theorem handler_failure_not_cached (message : Message) (state : option (State StateData))
    t error :
  isAgentMessage agentId message = false →
  default ∅ (st_cache StateData (stateOf' state))
    !! cacheKeyOf message (ensureCorrelationId (stateOf' state) message) = None →
  buildSnapshot' message (ensureCorrelationId (stateOf' state) message)
    = (t, Rejected error) →
  let reason :=
    messageOr error (fun _ => "Errore inatteso durante la generazione snapshot") in
  handler' message state None = ((t, Resolved (failureResult reason)), stateOf' state) ∧
  ∀ call u, call (failureText reason) = Resolved u →
    handler' message state (Some call) =
      (((t ++ [Reply (failureText reason)])%list, Resolved (failureResult reason)),
       stateOf' state).
Proof.
  intros Hagent Hmiss Hbuild. cbv zeta. unfold handler. fold (stateOf' state). cbv zeta.
  rewrite Hagent, Hmiss, Hbuild. split.
  - unfold bind, ret. by rewrite app_nil_r.
  - intros call u Hcall. unfold bind, perform, ret. rewrite Hcall. by rewrite app_nil_r.
Qed.

(** X16: a snapshot that was built is answered and stored under the key of
    the message; the other entries of the cache and the rest of the state are
    kept, and the next invocation under the same correlation id answers the
    stored result without any effect. *)
Theorem handler_success_is_cached (message : Message) (state0 : State StateData)
    (callback : option (string → Outcome unit)) trace result :
  isAgentMessage agentId message = false →
  default ∅ (st_cache StateData state0)
    !! cacheKeyOf message (ensureCorrelationId state0 message) = None →
  buildSnapshot' message (ensureCorrelationId state0 message) = (trace, Resolved result) →
  let key := cacheKeyOf message (ensureCorrelationId state0 message) in
  let state1 := snd (handler' message (Some state0) callback) in
  fst (handler' message (Some state0) callback) = (trace, Resolved result) ∧
  default ∅ (st_cache StateData state1) !! key = Some result ∧
  (∀ k, k ≠ key →
     default ∅ (st_cache StateData state1) !! k = default ∅ (st_cache StateData state0) !! k) ∧
  st_data StateData state1 = st_data StateData state0 ∧
  (ensureCorrelationId state1 message = ensureCorrelationId state0 message →
   ∀ callback',
     handler' message (Some state1) callback' = (([], Resolved result), state1)).
Proof.
  intros Hagent Hmiss Hbuild.
  assert (Hrun : handler' message (Some state0) callback =
            ((trace, Resolved result),
             {| st_cache :=
                  Some (<[cacheKeyOf message (ensureCorrelationId state0 message) := result]>
                          (default ∅ (st_cache StateData state0)));
                st_data := st_data StateData state0 |})).
  { unfold handler. simpl. by rewrite Hagent, Hmiss, Hbuild. }
  cbv zeta. rewrite Hrun. cbn [fst snd st_cache st_data default]. split_and!.
  - done.
  - apply lookup_insert_eq.
  - intros k Hk. by apply lookup_insert_ne.
  - done.
  - intros Hcorr callback'. apply handler_cache_hit; [done|].
    rewrite Hcorr. cbn [st_cache default]. apply lookup_insert_eq.
Qed.

(** X17: a snapshot that [renderSnapshot] answers compares the primary
    symbol with at most four other candidates, each of which has a price
    history; its text is the summary of its payload; and it carries at most one
    attachment, which is there exactly when a chart was rendered: without a
    chart, nothing at all is performed. *)
Theorem renderSnapshot_payload corrId candidates symbolDataMap primarySymbol primaryData
    t result :
  renderSnapshot' corrId candidates symbolDataMap primarySymbol primaryData
    = (t, Resolved result) →
  ∃ payload attachments,
    ar_data result = DataSnapshot payload ∧
    ar_attachments result = Some attachments ∧
    ar_text result = Some (sp_summary payload) ∧
    sp_primarySymbol payload = primarySymbol ∧
    (length (sp_compareSymbols payload) ≤ 4)%nat ∧
    Forall (fun symbol =>
              symbol ≠ primarySymbol ∧ symbol ∈ candidates ∧
              hasHistoryData (symbolDataMap !! symbol ≫= ds_history) = true)
           (sp_compareSymbols payload) ∧
    (length attachments ≤ 1)%nat ∧
    (attachments = [] → t = [] ∧ sp_chartAttached payload = false) ∧
    (attachments ≠ [] →
       (∃ title, head t = Some (RenderChart title)) ∧ sp_chartAttached payload = true).
Proof.
  unfold renderSnapshot. cbv zeta. intros H.
  apply bind_Resolved in H as (t1 & chartResult & t2 & Hchart & H & ->).
  apply bind_Resolved in H as (t3 & [] & t4 & Hdump & H & ->).
  apply bind_Resolved in H as (t5 & lines & t6 & Hlines & H & ->).
  injection H as <- <-.
  assert (Ht5 : t5 = []).
  { unfold overviewSections in Hlines.
    destruct (formatPercent _ _) as [ter|]; [|done].
    destruct (formatCurrency _ _) as [aum|]; [|done].
    destruct (formatCurrency _ _) as [nav|]; [|done].
    rewrite !bind_lift_Resolved in Hlines. by injection Hlines as <- _. }
  subst t5.
  eexists _, _. split; [reflexivity|]. split; [reflexivity|]. split; [reflexivity|].
  split; [reflexivity|]. cbn [sp_compareSymbols sp_chartAttached]. split_and!.
  - rewrite length_take. unfold MAX_COMPARISONS. lia.
  - apply Forall_take, Forall_forall. intros symbol Hsymbol.
    apply list_elem_of_filter in Hsymbol as [[Hne Hhist] Hin]. done.
  - destruct chartResult; cbn; lia.
  - intros Hnone. destruct chartResult as [chart|]; [done|].
    cbn in Hdump. injection Hdump as <-.
    destruct (_ && _); [|by injection Hchart as <-].
    apply bind_Resolved in Hchart as (? & chart & ? & _ & Hchart & _). done.
  - intros Hsome. destruct chartResult as [chart|]; [|done]. split; [|done].
    destruct (_ && _); [|done].
    apply bind_Resolved in Hchart as (tc & chart' & ? & Hperform & Hret & ->).
    unfold perform in Hperform. injection Hperform as <- _. by eexists.
Qed.

Section Offline.
Hypothesis no_profile : ∀ symbol, snd (fmpEtfProfile symbol) = Resolved None.
Hypothesis no_extra_profile : ∀ symbol, snd (finnhubEtfProfile symbol) = Resolved None.
Hypothesis no_holdings : ∀ symbol, snd (fmpEtfHoldings symbol) = Resolved None.
Hypothesis no_manual_overview : ∀ symbol, manualOverview symbol = None.
Hypothesis no_manual_holdings : ∀ symbol, manualHoldings symbol = None.
Hypothesis no_alpha_vantage :
  ENABLE_ALPHA_VANTAGE settings = false ∨ ALPHAVANTAGE_API_KEY settings = "".
Hypothesis no_download :
  ∀ url, match getText url with
         | Resolved csv => stooqBars csv = None
         | Rejected _ => True
         end.

Lemma stooqDaily_offline (symbol : string) :
  snd (stooqDaily encodeURIComponent getText symbol) = Resolved None ∨
  ∃ e, snd (stooqDaily encodeURIComponent getText symbol) = Rejected e.
Proof.
  destruct (decide (toLowerCase symbol ∈ inheritedNames)) as [Hin|Hin].
  - right. destruct (ProviderFacts.stooqDaily_inherited_name encodeURIComponent getText
                       symbol Hin) as [e ->]. by exists e.
  - left. by apply ProviderFacts.stooqDaily_unusable.
Qed.

Lemma fetchSymbolDataset_offline (symbol : string) :
  match snd (fetchSymbolDataset' symbol) with
  | Resolved dataset => hasAnyData dataset = false
  | Rejected _ => True
  end.
Proof.
  unfold fetchSymbolDataset.
  pose proof (no_profile symbol) as H1. pose proof (no_extra_profile symbol) as H2.
  pose proof (no_holdings symbol) as H3.
  destruct (fmpEtfProfile symbol) as [t1 o1]. destruct (finnhubEtfProfile symbol) as [t2 o2].
  destruct (fmpEtfHoldings symbol) as [t3 o3]. cbn [snd] in H1, H2, H3. subst o1 o2 o3.
  rewrite no_manual_overview, no_manual_holdings.
  rewrite (ProviderFacts.alphaVantageDaily_disabled _ _ _ _ _ symbol no_alpha_vantage).
  pose proof (stooqDaily_offline symbol) as Hstooq.
  destruct (stooqDaily encodeURIComponent getText symbol) as [t4 o4].
  cbn [snd] in Hstooq. destruct Hstooq as [->|[e ->]]; cbn -[Normalize.reconcileOverview].
  - unfold hasAnyData. cbn [ds_overview ds_holdings ds_history hasHoldingsData hasHistoryData].
    rewrite !orb_false_r. by vm_compute.
  - done.
Qed.

Lemma fetchAll_offline (candidates : list string)
    (symbolDataMap : gmap string SymbolDataset) :
  (∀ k dataset, symbolDataMap !! k = Some dataset → hasAnyData dataset = false) →
  ∃ t m, fetchAll' candidates symbolDataMap = (t, Resolved m) ∧
         ∀ k dataset, m !! k = Some dataset → hasAnyData dataset = false.
Proof.
  revert symbolDataMap. induction candidates as [|candidate rest IH];
    intros symbolDataMap Hmap.
  - by eexists _, _.
  - cbn [fetchAll]. pose proof (fetchSymbolDataset_offline candidate) as Hfetch.
    destruct (fetchSymbolDataset' candidate) as [t [dataset|e]]; cbn [snd] in Hfetch.
    + destruct (IH (<[candidate := dataset]> symbolDataMap)) as (t' & m & Hm & Hall).
      { intros k ds Hk. destruct (decide (k = candidate)) as [->|Hne].
        - rewrite lookup_insert_eq in Hk. by injection Hk as <-.
        - rewrite lookup_insert_ne in Hk by done. by eapply Hmap. }
      simpl. rewrite Hm. by eexists _, _.
    + destruct (IH symbolDataMap Hmap) as (t' & m & Hm & Hall).
      simpl. rewrite Hm. by eexists _, _.
Qed.

(** X18: with no profile, no holdings, no manual data, Alpha Vantage off
    and every Stooq download failing or unusable, a message that names symbols
    is answered by the no-data explanation ([success = false]); no snapshot is
    made of empty data. *)
Theorem buildSnapshot_offline (message : Message) (corrId : string) :
  candidatesOf message ≠ [] →
  snd (buildSnapshot' message corrId) = Resolved noDataResult.
Proof.
  intros Hcandidates. unfold buildSnapshot.
  destruct (candidatesOf message) as [|c cs]; [done|].
  destruct (fetchAll_offline (c :: cs) ∅) as (t & m & Hm & Hall).
  { intros k ds Hk. by rewrite lookup_empty in Hk. }
  rewrite Hm. unfold bind.
  assert (Hfind : list_find (fun c => from_option hasAnyData false (m !! c) = true) (c :: cs)
                  = None).
  { apply list_find_None, Forall_forall. intros x _.
    destruct (m !! x) as [ds|] eqn:Hx; [|done]. cbn. by rewrite (Hall x ds Hx). }
  by rewrite Hfind.
Qed.

End Offline.

End Action.

(** *** The handler in a small world *)

Definition emptyState : State unit := {| st_cache := None; st_data := tt |}.

Lemma handler_failure_not_cached_witness :
  snd (demoHandler failingChart demoMessage None None) = emptyState.
Proof.
  edestruct (handler_failure_not_cached (fun _ => "") (fun s => s) (fun _ _ => 0%Z)
               demoSettings (fun _ => Rejected (ThrownError "offline"))
               (fun _ => Resolved demoCsv)
               (fun _ => ret None) (fun _ => ret None) (fun _ => ret None)
               (fun _ => None) (fun _ => None) failingChart 0%Z false "agent-1" unit tt
               (fun _ _ => "corr-1") demoMessage None) as [Hrun _];
    [by vm_compute | by vm_compute | vm_compute; reflexivity |].
  unfold demoHandler. rewrite Hrun. reflexivity.
Defined.

Lemma handler_success_is_cached_witness :
  ∃ result,
    fst (demoHandler pngChart demoMessage (Some emptyState) None)
      = ([HttpGet "https://stooq.com/q/d/l/?s=voo.us&i=d";
          RenderChart "Andamento ultimi 2 giorni"], Resolved result) ∧
    ar_success result = true ∧
    st_cache unit (snd (demoHandler pngChart demoMessage (Some emptyState) None))
      = Some {[ "room-1:corr-1" := result ]}.
Proof.
  edestruct (handler_success_is_cached (fun _ => "") (fun s => s) (fun _ _ => 0%Z)
               demoSettings (fun _ => Rejected (ThrownError "offline"))
               (fun _ => Resolved demoCsv)
               (fun _ => ret None) (fun _ => ret None) (fun _ => ret None)
               (fun _ => None) (fun _ => None) pngChart 0%Z false "agent-1" unit tt
               (fun _ _ => "corr-1") demoMessage emptyState None) as (Hrun & _);
    [by vm_compute | by vm_compute | vm_compute; reflexivity |].
  eexists. split; [exact Hrun|]. split; [reflexivity|]. vm_compute. reflexivity.
Defined.

(** The data of one symbol with a history of two days. *)
Definition demoDataset : SymbolDataset :=
  {| ds_overview := Normalize.reconcileOverview "VOO" [];
     ds_holdings := None;
     ds_history :=
       Some (NormalizeFacts.mkHistory "VOO"
               [ NormalizeFacts.mkBar "2024-01-02" 435.5%float;
                 NormalizeFacts.mkBar "2024-01-03" 433.25%float ] "stooq") |}.

Lemma renderSnapshot_payload_witness :
  ∃ t result payload attachments,
    renderSnapshot (fun _ => "") pngChart 0%Z false "corr-1" ["VOO"]
      {[ "VOO" := demoDataset ]} "VOO" demoDataset = (t, Resolved result) ∧
    ar_data result = DataSnapshot payload ∧
    ar_attachments result = Some attachments ∧
    sp_compareSymbols payload = [] ∧ length attachments = 1%nat.
Proof.
  eexists _, _.
  edestruct (renderSnapshot_payload (fun _ => "") pngChart 0%Z false "corr-1" ["VOO"]
               {[ "VOO" := demoDataset ]} "VOO" demoDataset)
    as (payload & attachments & Hdata & Hatt & _);
    [vm_compute; reflexivity|].
  exists payload, attachments. split; [reflexivity|]. split; [exact Hdata|].
  split; [exact Hatt|].
  cbn [ar_data] in Hdata. injection Hdata as <-.
  cbn [ar_attachments] in Hatt. injection Hatt as <-. split; reflexivity.
Defined.

Lemma buildSnapshot_offline_witness :
  snd (buildSnapshot (fun _ => "") (fun s => s) (fun _ _ => 0%Z) demoSettings
         (fun _ => Rejected (ThrownError "offline"))
         (fun _ => Rejected (ThrownError "offline"))
         (fun _ => ret None) (fun _ => ret None) (fun _ => ret None)
         (fun _ => None) (fun _ => None) pngChart 0%Z false demoMessage "corr-1")
    = Resolved noDataResult.
Proof.
  apply buildSnapshot_offline; [done..| by left | done | by vm_compute].
Defined.

End ActionFacts.

(** ** More on the [PRICE_CHECK] action *)

Module PriceCheckFacts.
Import Effects EffectFacts Hyperliquid.
Local Open Scope effect_scope.

Lemma findIndex_None {A : Type} (p : A → bool) (l : list A) :
  (∀ x, x ∈ l → p x = false) → findIndex p l = None.
Proof.
  induction l as [|x l IH]; intros Hall; [done|]. cbn [findIndex].
  rewrite (Hall x) by (apply elem_of_cons; by left).
  rewrite IH; [done|]. intros y Hy. apply Hall, elem_of_cons. by right.
Qed.

Lemma findIndex_Some {A : Type} (p : A → bool) (l : list A) (x : A) :
  x ∈ l → p x = true → ∃ i, findIndex p l = Some i.
Proof.
  induction l as [|y l IH]; intros Hin Hp; [by apply elem_of_nil in Hin|].
  cbn [findIndex]. destruct (p y) eqn:Hy; [by eexists|].
  apply elem_of_cons in Hin as [->|Hin]; [congruence|].
  destruct (IH Hin Hp) as [i ->]. by eexists.
Qed.

Section PriceCheck.
Variable numberToString : float → string.
Variable replace : string → string → string → string.
Variable priceCheckTemplate : string.

Local Abbreviation checkPrice' := (checkPrice numberToString replace priceCheckTemplate).
Local Abbreviation handler' := (handler numberToString replace priceCheckTemplate).

(** A reply that carries a price. *)
Definition IsPriceReply (reply : Reply) : Prop :=
  ∃ symbol price dayChange volume,
    reply_content reply = PriceContent symbol price dayChange volume.

(** The body of the [try] block either throws before any reply, or replies
    with the price, when there is a callback, and answers [true]. *)
Lemma checkPrice_shape (env : Env) (state : option State) (callback : bool) :
  (∃ e, checkPrice' env state callback = ([], Rejected e)) ∨
  (∃ reply, IsPriceReply reply ∧
     checkPrice' env state callback = (if callback then [reply] else [], Resolved true)).
Proof.
  unfold checkPrice.
  assert (Hstate : (∃ e, match state with
                         | Some st => ret st
                         | None => lift (composeState env)
                         end = (([] : list Reply), Rejected e)) ∨
                   (∃ st, match state with
                          | Some st => ret st
                          | None => lift (composeState env)
                          end = (([] : list Reply), Resolved st))).
  { destruct state as [st|]; [right; by exists st|].
    unfold lift. destruct (composeState env) as [st|e]; [right|left]; by eexists. }
  destruct Hstate as [[e ->]|[st ->]]; [left; by exists e|].
  rewrite bind_ret || (change (([] : list Reply), Resolved st) with (@ret Reply _ st);
                       rewrite bind_ret).
  destruct (useModel env _) as [text|e]; [|left; by exists e].
  rewrite bind_lift_Resolved.
  destruct (parseKeyValueXml env text ≫= _) as [symbol|]; [|left; by eexists].
  destruct symbol as [|c symbol']; [left; by eexists|].
  set (symbol := String c symbol').
  destruct (connect env) as [[]|e]; [|left; by exists e].
  rewrite bind_lift_Resolved.
  destruct (getSpotMetaAndAssetCtxs env) as [[tokens assetCtxs]|e]; [|left; by exists e].
  rewrite bind_lift_Resolved.
  destruct (findIndex _ tokens); [|left; by eexists].
  destruct (findIndex _ assetCtxs) as [marketIndex|]; [|left; by eexists].
  destruct (assetCtxs !! marketIndex ≫= usableCtx) as [[marketCtx midPx]|];
    [|left; by eexists].
  right. destruct callback.
  - eexists. split; [|reflexivity]. by eexists _, _, _, _.
  - eexists {| reply_text := ""; reply_content := PriceContent "" 0%float "" "" |}.
    split; [by eexists _, _, _, _|reflexivity].
Qed.


(** X20: the token is looked up without regard to letter case, the market
    with it: for a symbol that names a token in another letter case than the
    markets use, the handler reports that there is no market, and answers
    [false]. *)
Theorem priceCheck_market_letter_case (env : Env) (st : State) (text symbol : string)
    (fields : gmap string string) (tokens : list TokenInfo) (assetCtxs : list AssetContext)
    (token : TokenInfo) :
  useModel env (replace priceCheckTemplate "{{recentMessages}}"
                  (default "" (recentMessagesString st))) = Resolved text →
  parseKeyValueXml env text = Some fields →
  fields !! "symbol" = Some symbol → symbol ≠ "" →
  connect env = Resolved tt →
  getSpotMetaAndAssetCtxs env = Resolved (tokens, assetCtxs) →
  token ∈ tokens →
  Tickers.toUpperCase (tk_name token) = Tickers.toUpperCase symbol →
  (∀ ctx, ctx ∈ assetCtxs → ctx_coin ctx ≠ symbol ++ "-SPOT") →
  handler' env (Some st) true =
    ( [ {| reply_text := "Error checking price: Could not find market for " ++ symbol;
           reply_content := ErrorContent ("Could not find market for " ++ symbol) |} ],
      Resolved false ).
Proof.
  intros Hmodel Hparse Hsymbol Hne Hconnect Hmarket Htoken Hname Hctx.
  unfold handler, checkPrice. rewrite bind_ret, Hmodel, bind_lift_Resolved.
  rewrite Hparse. cbn [mbind option_bind]. rewrite Hsymbol.
  destruct symbol as [|c symbol']; [done|]. set (symbol := String c symbol') in *.
  rewrite Hconnect, bind_lift_Resolved, Hmarket, bind_lift_Resolved.
  destruct (findIndex_Some
              (fun token => bool_decide (Tickers.toUpperCase (tk_name token)
                                         = Tickers.toUpperCase symbol)) tokens token)
    as [i ->]; [done|by apply bool_decide_eq_true_2|].
  rewrite findIndex_None; [reflexivity|].
  intros ctx Hin. apply bool_decide_eq_false_2. by apply Hctx.
Qed.

End PriceCheck.

Lemma priceCheck_market_letter_case_witness :
  handler (fun _ => "") (fun template _ _ => template) "{{recentMessages}}"
    (mockEnv "pip") (Some mockState) true =
    ( [ {| reply_text := "Error checking price: Could not find market for pip";
           reply_content := ErrorContent "Could not find market for pip" |} ],
      Resolved false ).
Proof.
  apply (priceCheck_market_letter_case (fun _ => "") (fun template _ _ => template)
           "{{recentMessages}}" (mockEnv "pip") mockState
           "<response><symbol>pip</symbol></response>" "pip" {[ "symbol" := "pip" ]}
           (fst mockMarket) (snd mockMarket) {| tk_name := "PIP"; tk_szDecimals := 2 |});
    try done.
  - apply elem_of_cons. right. apply elem_of_cons. right. apply elem_of_cons. by left.
  - intros ctx Hin. unfold mockMarket in Hin. cbn [snd] in Hin.
    repeat (apply elem_of_cons in Hin as [->|Hin]; [done|]). by apply elem_of_nil in Hin.
Defined.

End PriceCheckFacts.
